(** * nri-jmx: conversion of Java-agent JMX definitions

    A shallow embedding of the converter of the nri-jmx integration
    (the file that declares [reduceJavaAgentYaml], [buildCollectionDefinition],
    [convertMetricType] and [getEventName]) and the properties of its
    reduction, its event-name resolver and its emitter; and of
    [checkMetricLimit], the metric limit of [jmx.go].

    Go strings are byte strings: they are modelled by [string], whose
    characters are the 256 values of [ascii].  Go maps are modelled by
    stdpp's [gmap]; the objects the reducer reaches through pointers live
    in an explicit heap.  A run-time panic is an explicit outcome. *)

From Stdlib Require Import Ascii String.
From stdpp Require Import gmap strings list fin_maps.

Set Default Proof Using "Type".

(** ** Outcomes of Go code that may panic *)

(** The run-time panics the converter can raise.  The first component of an
    index fault names the indexed variable; the two numbers are the ones of
    Go's message, "index out of range [i] with length n". *)
Inductive panic : Type :=
  | IndexOutOfRange (var : string) (i n : nat)
  | SliceOutOfRange (var : string) (lo hi n : nat)
  | NilDereference.

Inductive result (A : Type) : Type :=
  | Ok (a : A)
  | Panic (p : panic).
Arguments Ok {A} a.
Arguments Panic {A} p.

(** A panic aborts what follows: [x ← r; k] is stdpp's notation for it. *)
Global Instance result_bind : MBind result := λ A B k r,
  match r with
  | Ok a => k a
  | Panic p => Panic p
  end.

(** [for _, x := range xs { body }] over a slice, threading the state [s]. *)
Fixpoint forRange {A S : Type} (body : S → A → result S) (xs : list A) (s : S)
  : result S :=
  match xs with
  | [] => Ok s
  | x :: xs' => s' ← body s x; forRange body xs' s'
  end.

(** [xs[i]] on a slice. *)
Definition index (var : string) (xs : list string) (i : nat) : result string :=
  match xs !! i with
  | Some x => Ok x
  | None => Panic (IndexOutOfRange var i (length xs))
  end.

(** [s[lo:hi]] on a string. *)
Definition slice (var : string) (s : string) (lo hi : nat) : result string :=
  if decide (lo ≤ hi ∧ hi ≤ String.length s)
  then Ok (String.substring lo (hi - lo) s)
  else Panic (SliceOutOfRange var lo hi (String.length s)).

(** ** The functions of Go's [strings] and [regexp] the converter calls *)

(** [strings.Split(s, sep)] for a separator of one byte, the only kind the
    converter passes (":", "," and "="): the pieces between the separators,
    one more than there are separators. *)
Fixpoint Split (s : string) (sep : ascii) : list string :=
  match s with
  | EmptyString => [EmptyString]
  | String c s' =>
      if Ascii.eqb c sep then EmptyString :: Split s' sep
      else match Split s' sep with
           | piece :: pieces => String c piece :: pieces
           | [] => [String c EmptyString]
           end
  end.

(** The UTF-8 encodings of the code points of Unicode's White_Space
    property, which is what [unicode.IsSpace] accepts: U+0009..U+000D,
    U+0020, U+0085, U+00A0, U+1680, U+2000..U+200A, U+2028, U+2029, U+202F,
    U+205F and U+3000. *)
Definition bytes (ns : list nat) : string :=
  foldr (fun n s => String (ascii_of_nat n) s) EmptyString ns.

Definition whiteSpace : list string :=
  bytes <$>
    [ [9]; [10]; [11]; [12]; [13]; [32];
      [194; 133]; [194; 160]; [225; 154; 128];
      [226; 128; 128]; [226; 128; 129]; [226; 128; 130]; [226; 128; 131];
      [226; 128; 132]; [226; 128; 133]; [226; 128; 134]; [226; 128; 135];
      [226; 128; 136]; [226; 128; 137]; [226; 128; 138];
      [226; 128; 168]; [226; 128; 169]; [226; 128; 175];
      [226; 129; 159]; [227; 128; 128] ].

(** The width in bytes of the first of [encs] that [s] starts with. *)
Definition widthOf (encs : list string) (s : string) : option nat :=
  String.length <$> List.find (fun enc => String.prefix enc s) encs.

(** Drops from the front of [s] every leading member of [encs]; [skip]
    counts the bytes of the current member still to drop. *)
Fixpoint dropLeading (encs : list string) (skip : nat) (s : string) : string :=
  match s with
  | EmptyString => EmptyString
  | String _ s' =>
      match skip with
      | S k => dropLeading encs k s'
      | O =>
          match widthOf encs s with
          | Some w => dropLeading encs (pred w) s'
          | None => s
          end
      end
  end.

(** [strings.TrimSpace]: the string without its leading and trailing white
    space.  A byte sequence that is not the encoding of a white-space code
    point (an invalid one included) stops the trimming. *)
Definition TrimSpace (s : string) : string :=
  let left := dropLeading whiteSpace 0 s in
  String.rev (dropLeading (String.rev <$> whiteSpace) 0 (String.rev left)).

(** [strings.Replace(s, old, new, -1)] for a non-empty [old], which is what
    every call of the converter passes: the occurrences of [old] are replaced
    from left to right, without overlap.  [skip] counts the bytes of the
    current occurrence still to drop. *)
Fixpoint replaceFrom (old new : string) (skip : nat) (s : string) : string :=
  match s with
  | EmptyString => EmptyString
  | String c s' =>
      match skip with
      | S k => replaceFrom old new k s'
      | O =>
          if String.prefix old s
          then new +:+ replaceFrom old new (pred (String.length old)) s'
          else String c (replaceFrom old new 0 s')
      end
  end.

Definition Replace (s old new : string) : string :=
  match old with
  | EmptyString => s
  | _ => replaceFrom old new 0 s
  end.

(** The class [\w] of Go's regular expressions: [0-9A-Za-z_]. *)
Definition isWord (c : ascii) : bool :=
  let n := nat_of_ascii c in
  (48 <=? n) && (n <=? 57) || (65 <=? n) && (n <=? 90)
  || (97 <=? n) && (n <=? 122) || (n =? 95).

(** The longest run of word bytes [s] starts with. *)
Fixpoint wordRun (s : string) : string :=
  match s with
  | EmptyString => EmptyString
  | String c s' => if isWord c then String c (wordRun s') else EmptyString
  end.

(** The match of the expression [{\w+}] that starts at the first byte of
    [s], if there is one: an opening brace, the longest run of word bytes,
    which is not empty, and a closing brace.  No shorter run can be followed
    by a brace, so this is the only match at that place. *)
Definition matchHere (s : string) : option string :=
  match s with
  | String "{" s' =>
      let w := wordRun s' in
      match w, String.get (String.length w) s' with
      | String _ _, Some "}"%char => Some ("{" +:+ w +:+ "}")
      | _, _ => None
      end
  | _ => None
  end.

(** [objNameRegex.MatchString(s)]: some place of [s] has a match. *)
Fixpoint MatchString (s : string) : bool :=
  match s with
  | EmptyString => false
  | String _ s' =>
      match matchHere s with
      | Some _ => true
      | None => MatchString s'
      end
  end.

(** [objNameRegex.FindAllString(s, -1)]: the successive matches from left to
    right, each search resuming after the previous match. *)
Fixpoint findAllFrom (skip : nat) (s : string) : list string :=
  match s with
  | EmptyString => []
  | String _ s' =>
      match skip with
      | S k => findAllFrom k s'
      | O =>
          match matchHere s with
          | Some m => m :: findAllFrom (pred (String.length m)) s'
          | None => findAllFrom 0 s'
          end
      end
  end.

Definition FindAllString (s : string) : list string := findAllFrom 0 s.

(** ** The metric kind and the event name *)

Definition defaultEventType : string := "JMXSample".
Definition sep : string := "_".

Definition convertMetricType (metrictype : string) : string :=
  let t := TrimSpace metrictype in
  if decide (t = "simple") then "gauge"
  else if decide (t = "monotonically_increasing") then "delta"
  else "gauge".

Definition makeInsightsCompliantEventType (inString : string) : string :=
  let inString := Replace inString " " "_" in
  let inString := Replace inString "/" ":" in
  inString.

(** The loop that fills [queryMap] from the pieces of the query. *)
Definition queryMapStep (queryMap : gmap string string) (thisQuery : string)
  : result (gmap string string) :=
  let querySplit := Split thisQuery "=" in
  k ← index "querySplit" querySplit 0;
  v ← index "querySplit" querySplit 1;
  Ok (<[k := v]> queryMap).

(** The loop that substitutes the matched placeholders, one after the other,
    in the name built so far. *)
Definition substituteStep (queryMap : gmap string string)
    (rootMetricName thisObj : string) : result string :=
  testObj ← slice "thisObj" thisObj 1 (String.length thisObj - 1);
  match queryMap !! testObj with
  | Some objVal => Ok (Replace rootMetricName thisObj objVal)
  | None => Ok rootMetricName
  end.

Definition getEventName (oldName rootMetricName query : string) : result string :=
  let oldName := if decide (oldName = "") then defaultEventType else oldName in
  if decide (rootMetricName = "") then Ok (makeInsightsCompliantEventType oldName)
  else
    rootMetricName ←
      (if MatchString rootMetricName then
         let queryStrings := Split query "," in
         queryMap ← forRange queryMapStep queryStrings ∅;
         let matchedObjs := FindAllString rootMetricName in
         forRange (substituteStep queryMap) matchedObjs rootMetricName
       else Ok rootMetricName);
    Ok (makeInsightsCompliantEventType (oldName +:+ sep +:+ rootMetricName)).

(** ** The structures of the converter *)

(** The parsed Java-agent definition.  Its [Version] (a [float32]) is read
    by nothing and is left out. *)
Record metricsDefinitionParser : Type := {
  Attributes : string;
  Type_ : string
}.

Record jmxDefinitionParser : Type := {
  ObjectName : string;
  RootMetricName : string;
  Metrics : list metricsDefinitionParser
}.

Record mainDefinitionParser : Type := {
  Name : string;
  Enabled : bool;
  JMX : list jmxDefinitionParser
}.

(** The reducer's structures.  A [*domainReducer] and a [*beanReducer] are
    addresses of objects in the heap, since the reducer updates the objects
    it has stored in a map through the pointers it keeps in local variables.
    An [*attributeReducer] is stored once and never read back or updated
    through a pointer: the map holds the value. *)
Abbreviation loc := positive.

Record attributeReducer : Type := {
  MetricType : string;
  MetricName : string
}.

Record beanReducer : Type := {
  AttributesMap : gmap string attributeReducer
}.

Record domainReducer : Type := {
  EventType : string;
  BeansMap : gmap string loc
}.

Record heap : Type := {
  domainObjs : gmap loc domainReducer;
  beanObjs : gmap loc beanReducer
}.

Definition emptyHeap : heap := {| domainObjs := ∅; beanObjs := ∅ |}.

(** [*p] for a pointer [p]; an address without object stands for [nil]. *)
Definition deref {A : Type} (objs : gmap loc A) (p : loc) : result A :=
  match objs !! p with
  | Some o => Ok o
  | None => Panic NilDereference
  end.

(** The address [&T{...}] allocates. *)
Definition newLoc {A : Type} (objs : gmap loc A) : loc := fresh (dom objs).

(** What the reducer returns: the map from domain to [*domainReducer],
    together with the heap its pointers point into. *)
Definition reduction : Type := gmap string loc * heap.

(** The output structures. *)
Module Out.
Record attributeOutput : Type := {
  Attr : string;
  MetricType : string;
  MetricName : string
}.

Record beanOutput : Type := {
  Query : string;
  Attributes : list attributeOutput
}.

Record domainOutput : Type := {
  Domain : string;
  EventType : string;
  Beans : list beanOutput
}.
End Out.

(** Go's [error] values; the converter's functions only ever return [nil]. *)
Definition error : Type := string.

(** ** The reducing parse *)

(** The variables of [reduceJavaAgentYaml] that its loops read and write. *)
Record frame : Type := {
  thisDomainMap : gmap string loc;
  thisDomain : option loc;
  thisBean : option loc;
  mem : heap
}.

Definition newAttribute (thisMetric : metricsDefinitionParser) (thisAttr : string)
  : attributeReducer :=
  {| MetricType := convertMetricType (Type_ thisMetric); MetricName := thisAttr |}.

(** The body of the loop over the attributes of one metric group. *)
Definition attrStep (m : mainDefinitionParser) (jmxObject : jmxDefinitionParser)
    (domainAndQuery : list string) (thisMetric : metricsDefinitionParser)
    (fr : frame) (thisAttr : string) : result frame :=
  let thisAttr := TrimSpace thisAttr in
  let h := mem fr in
  match thisBean fr with
  | Some b =>
      bean ← deref (beanObjs h) b;
      match AttributesMap bean !! thisAttr with
      | Some _ => Ok fr
      | None =>
          let bean' :=
            {| AttributesMap :=
                 <[thisAttr := newAttribute thisMetric thisAttr]> (AttributesMap bean) |} in
          Ok {| thisDomainMap := thisDomainMap fr;
                thisDomain := thisDomain fr;
                thisBean := Some b;
                mem := {| domainObjs := domainObjs h;
                          beanObjs := <[b := bean']> (beanObjs h) |} |}
      end
  | None =>
      let thisAttrMap : gmap string attributeReducer :=
        {[ thisAttr := newAttribute thisMetric thisAttr ]} in
      let b := newLoc (beanObjs h) in
      let beanObjs' := <[b := {| AttributesMap := thisAttrMap |}]> (beanObjs h) in
      match thisDomain fr with
      | None =>
          query ← index "domainAndQuery" domainAndQuery 1;
          outEventType ← getEventName (Name m) (RootMetricName jmxObject) query;
          query ← index "domainAndQuery" domainAndQuery 1;
          let thisBeanMap : gmap string loc := {[ query := b ]} in
          domain ← index "domainAndQuery" domainAndQuery 0;
          let d := newLoc (domainObjs h) in
          Ok {| thisDomainMap := <[domain := d]> (thisDomainMap fr);
                thisDomain := None;
                thisBean := Some b;
                mem := {| domainObjs :=
                            <[d := {| EventType := outEventType;
                                      BeansMap := thisBeanMap |}]> (domainObjs h);
                          beanObjs := beanObjs' |} |}
      | Some d =>
          dobj ← deref (domainObjs h) d;
          query ← index "domainAndQuery" domainAndQuery 1;
          Ok {| thisDomainMap := thisDomainMap fr;
                thisDomain := Some d;
                thisBean := Some b;
                mem := {| domainObjs :=
                            <[d := {| EventType := EventType dobj;
                                      BeansMap := <[query := b]> (BeansMap dobj) |}]>
                              (domainObjs h);
                          beanObjs := beanObjs' |} |}
      end
  end.

(** The body of the loop over the metric groups of one declaration. *)
Definition metricStep (m : mainDefinitionParser) (jmxObject : jmxDefinitionParser)
    (domainAndQuery : list string) (fr : frame)
    (thisMetric : metricsDefinitionParser) : result frame :=
  let inAttrs := Split (Attributes thisMetric) "," in
  forRange (attrStep m jmxObject domainAndQuery thisMetric) inAttrs fr.

(** The body of the loop over the declarations. *)
Definition declStep (m : mainDefinitionParser) (st : reduction)
    (jmxObject : jmxDefinitionParser) : result reduction :=
  let '(domainMap, h) := st in
  let domainAndQuery := Split (ObjectName jmxObject) ":" in
  domain ← index "domainAndQuery" domainAndQuery 0;
  fr ← match domainMap !! domain with
       | Some d =>
           dobj ← deref (domainObjs h) d;
           query ← index "domainAndQuery" domainAndQuery 1;
           Ok {| thisDomainMap := domainMap; thisDomain := Some d;
                 thisBean := BeansMap dobj !! query; mem := h |}
       | None =>
           Ok {| thisDomainMap := domainMap; thisDomain := None;
                 thisBean := None; mem := h |}
       end;
  fr ← forRange (metricStep m jmxObject domainAndQuery) (Metrics jmxObject) fr;
  Ok (thisDomainMap fr, mem fr).

Definition reduceFrom (m : mainDefinitionParser) (decls : list jmxDefinitionParser)
    (st : reduction) : result reduction :=
  forRange (declStep m) decls st.

Definition reduceJavaAgentYaml (m : mainDefinitionParser)
  : result (reduction * option error) :=
  st ← reduceFrom m (JMX m) (∅, emptyHeap);
  Ok (st, None).

(** ** The simple parse *)

(** The body of the loop over the attributes of [parseJavaAgentJmxDefinition]. *)
Definition parseAttr (thisMetric : metricsDefinitionParser)
    (outAttrs : list Out.attributeOutput) (thisAttr : string)
  : list Out.attributeOutput :=
  let thisAttr := TrimSpace thisAttr in
  outAttrs ++ [ {| Out.Attr := thisAttr;
                   Out.MetricType := convertMetricType (Type_ thisMetric);
                   Out.MetricName := thisAttr |} ].

(** The body of its loop over the metric groups. *)
Definition parseMetric (domainAndQuery : list string)
    (outbeans : list Out.beanOutput) (thisMetric : metricsDefinitionParser)
  : result (list Out.beanOutput) :=
  let inAttrs := Split (Attributes thisMetric) "," in
  let outAttrs := foldl (parseAttr thisMetric) [] inAttrs in
  query ← index "domainAndQuery" domainAndQuery 1;
  Ok (outbeans ++ [ {| Out.Query := query; Out.Attributes := outAttrs |} ]).

(** What it appends for one declaration. *)
Definition parseDecl (m : mainDefinitionParser) (jmxObject : jmxDefinitionParser)
  : result Out.domainOutput :=
  let domainAndQuery := Split (ObjectName jmxObject) ":" in
  outbeans ← forRange (parseMetric domainAndQuery) (Metrics jmxObject) [];
  query ← index "domainAndQuery" domainAndQuery 1;
  outEventType ← getEventName (Name m) (RootMetricName jmxObject) query;
  domain ← index "domainAndQuery" domainAndQuery 0;
  Ok {| Out.Domain := domain; Out.EventType := outEventType; Out.Beans := outbeans |}.

Definition parseJavaAgentJmxDefinition (m : mainDefinitionParser)
  : result (list Out.domainOutput * option error) :=
  domains ← forRange (fun domains jmxObject =>
                        d ← parseDecl m jmxObject; Ok (domains ++ [d]))
                     (JMX m) [];
  Ok (domains, None).

(** ** The emitter *)

(** [for k, v := range m] over a Go map visits every entry once, in an
    order the language leaves unspecified: any arrangement of the entries
    is a possible sequence of iterations. *)
Definition ranges {V : Type} (m : gmap string V) (kvs : list (string * V)) : Prop :=
  kvs ≡ₚ map_to_list m.

Definition attributeOutputOf (kv : string * attributeReducer) : Out.attributeOutput :=
  {| Out.Attr := kv.1;
     Out.MetricType := MetricType kv.2;
     Out.MetricName := MetricName kv.2 |}.

(** The innermost loop of [buildCollectionDefinition]: [attributes] is what
    it appends for one bean. *)
Definition buildAttributes (attributesMap : gmap string attributeReducer)
    (attributes : list Out.attributeOutput) : Prop :=
  ∃ kvs, ranges attributesMap kvs ∧ attributes = attributeOutputOf <$> kvs.

(** One iteration of the loop over the beans of a domain. *)
Definition buildBean (h : heap) (kv : string * loc) (o : Out.beanOutput) : Prop :=
  ∃ beanContents,
    beanObjs h !! kv.2 = Some beanContents ∧
    Out.Query o = kv.1 ∧
    buildAttributes (AttributesMap beanContents) (Out.Attributes o).

Definition buildBeans (h : heap) (beansMap : gmap string loc)
    (beans : list Out.beanOutput) : Prop :=
  ∃ kvs, ranges beansMap kvs ∧ Forall2 (buildBean h) kvs beans.

(** One iteration of the loop over the domains. *)
Definition buildDomain (h : heap) (kv : string * loc) (o : Out.domainOutput) : Prop :=
  ∃ domainContents,
    domainObjs h !! kv.2 = Some domainContents ∧
    Out.Domain o = kv.1 ∧
    Out.EventType o = EventType domainContents ∧
    buildBeans h (BeansMap domainContents) (Out.Beans o).

(** [buildCollectionDefinition dr domains]: [domains] is a list the
    function can return for [dr] (its error is always [nil]).  A pointer
    without object is [nil], which the function dereferences: it then
    panics and returns no list. *)
Definition buildCollectionDefinition (dr : reduction)
    (domains : list Out.domainOutput) : Prop :=
  ∃ kvs, ranges dr.1 kvs ∧ Forall2 (buildDomain dr.2) kvs domains.

(** ** The Intermediate Model a reduction denotes *)

(** The reduction read through its pointers: domain, then query, then
    attribute. *)
Record DomainGroup : Type := {
  eventType : string;
  queryGroups : gmap string (gmap string attributeReducer)
}.

Definition queryGroupsOf (h : heap) (beansMap : gmap string loc)
  : gmap string (gmap string attributeReducer) :=
  omap (fun b => AttributesMap <$> beanObjs h !! b) beansMap.

Definition domainGroupOf (h : heap) (d : loc) : option DomainGroup :=
  dobj ← domainObjs h !! d;
  Some {| eventType := EventType dobj;
          queryGroups := queryGroupsOf h (BeansMap dobj) |}.

Definition model (st : reduction) : gmap string DomainGroup :=
  omap (domainGroupOf st.2) st.1.

(** The query group of a domain and a query, and the entry of an attribute
    name in it, if any. *)
Definition queryGroup (im : gmap string DomainGroup) (domain query : string)
  : option (gmap string attributeReducer) :=
  g ← im !! domain; queryGroups g !! query.

Definition attributeEntry (im : gmap string DomainGroup)
    (domain query attr : string) : option attributeReducer :=
  am ← queryGroup im domain query; am !! attr.

(** ** The metric limit of the integration *)

(** [checkMetricLimit] of [jmx.go].  The entities and the metric sets are
    values of the SDK, which the function reads in three places only:
    [entity.Metrics], [len(metricSet.Metrics)] and [entity.Metadata.Name];
    the two types and the three readings are parameters.  [MetricLimit]
    is the argument [args.MetricLimit], a Go [int]; the count of an
    entity, a sum of lengths of maps held in memory, stays far from the
    bounds of [int] and is an integer here.  The warning the function logs
    for an entity it drops is returned with the entities it keeps. *)
Record limitWarning : Type := {
  warnedDomain : string;
  warnedCount : Z;
  warnedLimit : Z
}.

Section MetricLimit.

Context {Entity MetricSet : Type}.
Variable entityMetrics : Entity → list MetricSet.
Variable setLen : MetricSet → nat.
Variable entityName : Entity → string.

(** The inner loop: the metrics of the metric sets of an entity, added up. *)
Definition metricCountOf (entity : Entity) : Z :=
  foldl (fun metricCount metricSet => (metricCount + Z.of_nat (setLen metricSet))%Z)
        0%Z (entityMetrics entity).

(** The body of the loop over the entities. *)
Definition checkStep (MetricLimit : Z) (acc : list Entity * list limitWarning)
    (entity : Entity) : list Entity * list limitWarning :=
  let '(validEntities, warnings) := acc in
  let metricCount := metricCountOf entity in
  if bool_decide (MetricLimit ≠ 0%Z) && bool_decide (metricCount > MetricLimit)%Z
  then (validEntities,
        warnings ++ [ {| warnedDomain := entityName entity;
                         warnedCount := metricCount;
                         warnedLimit := MetricLimit |} ])
  else (validEntities ++ [entity], warnings).

Definition checkMetricLimit (MetricLimit : Z) (entities : list Entity)
  : list Entity * list limitWarning :=
  foldl (checkStep MetricLimit) ([], []) entities.

(** An entity is over the limit when there is one and its metrics exceed it. *)
Definition overLimit (MetricLimit : Z) (entity : Entity) : Prop :=
  MetricLimit ≠ 0%Z ∧ (metricCountOf entity > MetricLimit)%Z.

Global Instance overLimit_dec MetricLimit entity : Decision (overLimit MetricLimit entity).
Proof. unfold overLimit. apply _. Defined.

Definition warningOf (MetricLimit : Z) (entity : Entity) : limitWarning :=
  {| warnedDomain := entityName entity;
     warnedCount := metricCountOf entity;
     warnedLimit := MetricLimit |}.

End MetricLimit.

(** * The vocabulary of the statements *)

(** The domain and the query the reducer reads off a declaration: the
    first and the second piece of its pattern. *)
Definition domainOf (decl : jmxDefinitionParser) : string :=
  default "" (Split (ObjectName decl) ":" !! 0).

Definition queryOf (decl : jmxDefinitionParser) : option string :=
  Split (ObjectName decl) ":" !! 1.

(** The attribute names of a metric group: the pieces of its attribute
    string, trimmed; and the entries it offers to its query group. *)
Definition attrNames (mg : metricsDefinitionParser) : list string :=
  TrimSpace <$> Split (Attributes mg) ",".

(** A declaration targets a domain and a query when its pattern splits
    into them; it contributes to a domain when it also has a metric group. *)
Definition targets (d q : string) (decl : jmxDefinitionParser) : Prop :=
  domainOf decl = d ∧ queryOf decl = Some q.

Definition contributes (d : string) (decl : jmxDefinitionParser) : Prop :=
  domainOf decl = d ∧ Metrics decl ≠ [].

Global Instance targets_dec d q decl : Decision (targets d q decl).
Proof. unfold targets. apply _. Defined.

Global Instance contributes_dec d decl : Decision (contributes d decl).
Proof. unfold contributes. apply _. Defined.

(** The metric groups of the declarations that target a domain and a
    query, in input order, and the entries they offer. *)
Definition groupsFor (d q : string) (decls : list jmxDefinitionParser)
  : list metricsDefinitionParser :=
  filter (targets d q) decls ≫= Metrics.

(** Two of the possible runs of the emitter: the one that visits every map
    in the order of [map_to_list] and the one that visits it backwards. *)
Definition visit {V : Type} (backwards : bool) (l : list V) : list V :=
  if backwards then reverse l else l.

Definition emitBean (backwards : bool) (h : heap) (kv : string * loc)
  : option Out.beanOutput :=
  beanContents ← beanObjs h !! kv.2;
  Some {| Out.Query := kv.1;
          Out.Attributes :=
            attributeOutputOf
              <$> visit backwards (map_to_list (AttributesMap beanContents)) |}.

Definition emitDomain (backwards : bool) (h : heap) (kv : string * loc)
  : option Out.domainOutput :=
  domainContents ← domainObjs h !! kv.2;
  beans ← mapM (emitBean backwards h)
             (visit backwards (map_to_list (BeansMap domainContents)));
  Some {| Out.Domain := kv.1;
          Out.EventType := EventType domainContents;
          Out.Beans := beans |}.

Definition emit (backwards : bool) (dr : reduction)
  : option (list Out.domainOutput) :=
  mapM (emitDomain backwards dr.2) (visit backwards (map_to_list dr.1)).

(** Equality of outputs up to the order of the three levels of lists. *)
Definition upToOrder {B : Type} (E : B → B → Prop) (l1 l2 : list B) : Prop :=
  ∃ l, l1 ≡ₚ l ∧ Forall2 E l l2.

Definition sameBean (b1 b2 : Out.beanOutput) : Prop :=
  Out.Query b1 = Out.Query b2 ∧ Out.Attributes b1 ≡ₚ Out.Attributes b2.

Definition sameDomain (d1 d2 : Out.domainOutput) : Prop :=
  Out.Domain d1 = Out.Domain d2 ∧
  Out.EventType d1 = Out.EventType d2 ∧
  upToOrder sameBean (Out.Beans d1) (Out.Beans d2).

Definition sameCollection (o1 o2 : list Out.domainOutput) : Prop :=
  upToOrder sameDomain o1 o2.

(** An attribute string with an empty segment: the empty string, one with
    two commas in a row, or one that ends with a comma. *)
Definition hasEmptySegment (attrs : string) : Prop :=
  attrs = "" ∨ (∃ s1 s2, attrs = s1 +:+ ",," +:+ s2) ∨ (∃ s1, attrs = s1 +:+ ",").

Fixpoint occurs (c : ascii) (s : string) : bool :=
  match s with
  | EmptyString => false
  | String a s' => Ascii.eqb a c || occurs c s'
  end.

(** The text before the first [c] of [s] (all of [s] without one) and the
    text after it. *)
Fixpoint takeUntil (c : ascii) (s : string) : string :=
  match s with
  | EmptyString => EmptyString
  | String a s' => if Ascii.eqb a c then EmptyString else String a (takeUntil c s')
  end.

Fixpoint afterFirst (c : ascii) (s : string) : string :=
  match s with
  | EmptyString => EmptyString
  | String a s' => if Ascii.eqb a c then s' else afterFirst c s'
  end.

Fixpoint allWord (s : string) : bool :=
  match s with
  | EmptyString => true
  | String a s' => isWord a && allWord s'
  end.

(** [{w}] for a non-empty run [w] of word bytes. *)
Definition placeholder (ph w : string) : Prop :=
  ph = "{" +:+ w +:+ "}" ∧ w ≠ "" ∧ allWord w = true.

(** The template has a placeholder somewhere. *)
Definition containsPlaceholder (template : string) : Prop :=
  ∃ pre ph w post, template = pre +:+ ph +:+ post ∧ placeholder ph w.

(** The identifier of a placeholder: what stands between its braces. *)
Definition identifierOf (ph : string) : string :=
  String.substring 1 (String.length ph - 2) ph.

(** The key-to-value mapping the resolver builds from a query whose pieces
    all have an equals sign: the key is the text before the first equals
    sign and the value the text between the first and the next one; a later
    pair with the same key replaces the earlier one. *)
Definition pairMap (query : string) : gmap string string :=
  foldl (fun qm seg =>
           <[takeUntil "=" seg := takeUntil "=" (afterFirst "=" seg)]> qm)
        ∅ (Split query ",").

(** The template with, for each placeholder found in it, in order, every
    occurrence of the placeholder replaced by the value of its identifier
    when the mapping has one. *)
Definition substitute (qm : gmap string string) (template : string) : string :=
  foldl (fun t ph =>
           match qm !! identifierOf ph with
           | Some v => Replace t ph v
           | None => t
           end)
        template (FindAllString template).

(** The resolver as C5 words it: each pair is split on its first equals
    sign, the value being everything after it, and a piece without equals
    sign binds nothing. *)
Definition statedPairMap (query : string) : gmap string string :=
  foldl (fun qm seg =>
           if occurs "=" seg
           then <[takeUntil "=" seg := afterFirst "=" seg]> qm
           else qm)
        ∅ (Split query ",").

Definition statedResolve (appName template query : string) : string :=
  makeInsightsCompliantEventType
    (appName +:+ "_" +:+ substitute (statedPairMap query) template).

(** What [makeInsightsCompliantEventType] makes of one byte. *)
Definition compliantByte (c : ascii) : ascii :=
  if Ascii.eqb c " " then "_"%char
  else if Ascii.eqb c "/" then ":"%char
  else c.

(** A string with a function applied to each of its bytes. *)
Fixpoint mapBytes (f : ascii → ascii) (s : string) : string :=
  match s with
  | EmptyString => EmptyString
  | String c s' => String (f c) (mapBytes f s')
  end.

(** What a declaration needs for the reducer to get past it, given the
    declarations [pre] before it: a colon in its pattern as soon as it has
    a metric group or its domain has been created, and an event name the
    resolver returns when it is the one that creates its domain. *)
Definition passes (m : mainDefinitionParser) (pre : list jmxDefinitionParser)
    (decl : jmxDefinitionParser) : Prop :=
  (Metrics decl ≠ [] ∨ Exists (contributes (domainOf decl)) pre →
   occurs ":" (ObjectName decl) = true) ∧
  (Metrics decl ≠ [] → ¬ Exists (contributes (domainOf decl)) pre →
   ∃ q ev, queryOf decl = Some q ∧
           getEventName (Name m) (RootMetricName decl) q = Ok ev).

(** The definition with the declarations that have no metric group left out. *)
Definition withoutSilent (m : mainDefinitionParser) : mainDefinitionParser :=
  {| Name := Name m; Enabled := Enabled m;
     JMX := filter (fun decl => Metrics decl ≠ []) (JMX m) |}.

(** The definition with every declaration given twice. *)
Definition twice (m : mainDefinitionParser) : mainDefinitionParser :=
  {| Name := Name m; Enabled := Enabled m; JMX := JMX m ++ JMX m |}.

(** What the simple parse appends for a declaration whose pattern splits
    into a domain and the query [q]: one bean per metric group and one
    attribute per piece of its attribute string, in input order; and the
    domain record it builds for the declaration. *)
Definition simpleBean (q : string) (mg : metricsDefinitionParser) : Out.beanOutput :=
  {| Out.Query := q;
     Out.Attributes :=
       (fun a => {| Out.Attr := a;
                    Out.MetricType := convertMetricType (Type_ mg);
                    Out.MetricName := a |}) <$> attrNames mg |}.

Definition simpleDomain (m : mainDefinitionParser) (decl : jmxDefinitionParser)
    (dout : Out.domainOutput) : Prop :=
  ∃ q, queryOf decl = Some q ∧
       Out.Domain dout = domainOf decl ∧
       getEventName (Name m) (RootMetricName decl) q = Ok (Out.EventType dout) ∧
       Out.Beans dout = simpleBean q <$> Metrics decl.

(** An attribute of a query of a domain in a list of domain records. *)
Definition listed (out : list Out.domainOutput) (d q a : string) : Prop :=
  ∃ dout bout aout,
    dout ∈ out ∧ Out.Domain dout = d ∧
    bout ∈ Out.Beans dout ∧ Out.Query bout = q ∧
    aout ∈ Out.Attributes bout ∧ Out.Attr aout = a.

(** The definition with its declarations in the opposite order. *)
Definition reversed (m : mainDefinitionParser) : mainDefinitionParser :=
  {| Name := Name m; Enabled := Enabled m; JMX := reverse (JMX m) |}.

(** * The invariants of the reducer *)

Definition frameState (fr : frame) : reduction := (thisDomainMap fr, mem fr).

(** The address of the bean a domain and a query lead to. *)
Definition beanAt (st : reduction) (domain query : string) : option loc :=
  l ← st.1 !! domain; dobj ← domainObjs st.2 !! l; BeansMap dobj !! query.

Definition eventTypeAt (st : reduction) (domain : string) : option string :=
  eventType <$> model st !! domain.

(** Every stored pointer has its object, and no object is stored twice. *)
Record wf (st : reduction) : Prop := {
  wf_domain : ∀ d l, st.1 !! d = Some l → is_Some (domainObjs st.2 !! l);
  wf_bean : ∀ l dobj q b,
    domainObjs st.2 !! l = Some dobj → BeansMap dobj !! q = Some b →
    is_Some (beanObjs st.2 !! b);
  wf_domain_inj : ∀ d1 d2 l,
    st.1 !! d1 = Some l → st.1 !! d2 = Some l → d1 = d2;
  wf_bean_inj : ∀ l1 l2 o1 o2 q1 q2 b,
    domainObjs st.2 !! l1 = Some o1 → domainObjs st.2 !! l2 = Some o2 →
    BeansMap o1 !! q1 = Some b → BeansMap o2 !! q2 = Some b →
    l1 = l2 ∧ q1 = q2
}.

(** What the reducer does to the attributes of a query group. *)
Definition insertIfAbsent (attr : string) (e : attributeReducer)
    (am : gmap string attributeReducer) : gmap string attributeReducer :=
  match am !! attr with
  | Some _ => am
  | None => <[attr := e]> am
  end.

(** What holds of the local variables between two attributes of the
    declaration whose pattern splits into [dq] and whose domain is [dom]. *)
Definition frameInv (dq : list string) (dom : string) (fr : frame) : Prop :=
  wf (frameState fr) ∧ dq !! 0 = Some dom ∧
  match thisBean fr with
  | Some b => ∃ q, dq !! 1 = Some q ∧ beanAt (frameState fr) dom q = Some b
  | None =>
      thisDomainMap fr !! dom = thisDomain fr ∧
      (∀ l, thisDomain fr = Some l →
            ∃ q, dq !! 1 = Some q ∧ beanAt (frameState fr) dom q = None)
  end.

(** The event type of a domain after a declaration has contributed. *)
Definition resolved (m : mainDefinitionParser) (decl : jmxDefinitionParser)
    (q : string) (old new : option string) : Prop :=
  match old with
  | Some ev => new = Some ev
  | None => ∃ ev, getEventName (Name m) (RootMetricName decl) q = Ok ev
                  ∧ new = Some ev
  end.

(** The effect of one attribute on the model. *)
Definition attrEffect (m : mainDefinitionParser) (decl : jmxDefinitionParser)
    (dom q a : string) (e : attributeReducer) (st st' : reduction) : Prop :=
  (∀ d' q', queryGroup (model st') d' q' =
            if decide (d' = dom ∧ q' = q)
            then Some (insertIfAbsent a e (default ∅ (queryGroup (model st) dom q)))
            else queryGroup (model st) d' q') ∧
  resolved m decl q (eventTypeAt st dom) (eventTypeAt st' dom) ∧
  (∀ d', d' ≠ dom → eventTypeAt st' d' = eventTypeAt st d').

Definition entriesOf (mg : metricsDefinitionParser)
  : list (string * attributeReducer) :=
  (fun a => (a, newAttribute mg a)) <$> attrNames mg.

Definition declEntries (decl : jmxDefinitionParser)
  : list (string * attributeReducer) :=
  Metrics decl ≫= entriesOf.

Definition addOne (o : option (gmap string attributeReducer))
    (x : string * attributeReducer) : option (gmap string attributeReducer) :=
  Some (insertIfAbsent x.1 x.2 (default ∅ o)).

Definition addAll (L : list (string * attributeReducer))
    (o : option (gmap string attributeReducer))
  : option (gmap string attributeReducer) :=
  foldl addOne o L.

(** The effect of a run of attributes of one declaration on the model. *)
Definition entriesEffect (m : mainDefinitionParser) (decl : jmxDefinitionParser)
    (dom q : string) (L : list (string * attributeReducer))
    (st st' : reduction) : Prop :=
  (∀ d' q', queryGroup (model st') d' q' =
            if decide (d' = dom ∧ q' = q)
            then addAll L (queryGroup (model st) dom q)
            else queryGroup (model st) d' q') ∧
  match L with
  | [] => eventTypeAt st' dom = eventTypeAt st dom
  | _ :: _ => resolved m decl q (eventTypeAt st dom) (eventTypeAt st' dom)
  end ∧
  (∀ d', d' ≠ dom → eventTypeAt st' d' = eventTypeAt st d').

Definition entriesFor (d q : string) (decls : list jmxDefinitionParser)
  : list (string * attributeReducer) :=
  groupsFor d q decls ≫= entriesOf.

(** The event type of a domain after a run, given the one before it. *)
Definition eventSpec (m : mainDefinitionParser) (decls : list jmxDefinitionParser)
    (d : string) (old new : option string) : Prop :=
  match old with
  | Some ev => new = Some ev
  | None =>
      match head (filter (contributes d) decls) with
      | None => new = None
      | Some decl => ∃ q, queryOf decl = Some q ∧ resolved m decl q None new
      end
  end.

(** What the run of word bytes leaves of a string. *)
Fixpoint afterRun (s : string) : string :=
  match s with
  | EmptyString => EmptyString
  | String c s' => if isWord c then afterRun s' else s
  end.

(** * The inputs of the examples *)

Definition scenario : mainDefinitionParser :=
  {| Name := "MyApp"; Enabled := true;
     JMX := [ {| ObjectName := "domain:type=Thing,name=A";
                 RootMetricName := "Thing_{name}";
                 Metrics := [ {| Attributes := "count"; Type_ := "simple" |} ] |};
              {| ObjectName := "domain:type=Thing,name=A";
                 RootMetricName := "";
                 Metrics := [ {| Attributes := "count, errors";
                                 Type_ := "monotonically_increasing" |} ] |} ] |}.

(** The reduction of the end-to-end scenario. *)
Definition scenarioResult : reduction :=
  Eval vm_compute in
    match reduceFrom scenario (JMX scenario) (∅, emptyHeap) with
    | Ok st => st
    | Panic _ => (∅, emptyHeap)
    end.

(** A definition whose first declaration for the domain has no metric
    group. *)
Definition silentFirst : mainDefinitionParser :=
  {| Name := "App"; Enabled := true;
     JMX := [ {| ObjectName := "d:a=1"; RootMetricName := "First"; Metrics := [] |};
              {| ObjectName := "d:a=1"; RootMetricName := "Second";
                 Metrics := [ {| Attributes := "c"; Type_ := "simple" |} ] |} ] |}.

Definition silentFirstResult : reduction :=
  Eval vm_compute in
    match reduceFrom silentFirst (JMX silentFirst) (∅, emptyHeap) with
    | Ok st => st
    | Panic _ => (∅, emptyHeap)
    end.

Definition scenarioForwards : list Out.domainOutput :=
  Eval vm_compute in default [] (emit false scenarioResult).

Definition scenarioBackwards : list Out.domainOutput :=
  Eval vm_compute in default [] (emit true scenarioResult).

(** A definition with a trailing comma in an attribute string. *)
Definition trailingComma : mainDefinitionParser :=
  {| Name := "App"; Enabled := true;
     JMX := [ {| ObjectName := "d:a=1"; RootMetricName := "";
                 Metrics := [ {| Attributes := "c,"; Type_ := "simple" |} ] |} ] |}.

Definition trailingCommaResult : reduction :=
  Eval vm_compute in
    match reduceFrom trailingComma (JMX trailingComma) (∅, emptyHeap) with
    | Ok st => st
    | Panic _ => (∅, emptyHeap)
    end.

Definition noColon : mainDefinitionParser :=
  {| Name := "App"; Enabled := true;
     JMX := [ {| ObjectName := "java.lang"; RootMetricName := "";
                 Metrics := [ {| Attributes := "c"; Type_ := "simple" |} ] |} ] |}.

(** A pattern with two colons. *)
Definition twoColons : mainDefinitionParser :=
  {| Name := "App"; Enabled := true;
     JMX := [ {| ObjectName := "d:a=1:b=2"; RootMetricName := "";
                 Metrics := [ {| Attributes := "c"; Type_ := "simple" |} ] |} ] |}.

Definition twoColonsResult : reduction :=
  Eval vm_compute in
    match reduceFrom twoColons (JMX twoColons) (∅, emptyHeap) with
    | Ok st => st
    | Panic _ => (∅, emptyHeap)
    end.

(** The reduction of the scenario with every declaration given twice, the
    simple parse of the scenario, and the reduction of the scenario with
    its declarations in the opposite order. *)
Definition scenarioTwiceResult : reduction :=
  Eval vm_compute in
    match reduceFrom (twice scenario) (JMX (twice scenario)) (∅, emptyHeap) with
    | Ok st => st
    | Panic _ => (∅, emptyHeap)
    end.

(** A declaration without colon and without metric group. *)
Definition silentNoColon : mainDefinitionParser :=
  {| Name := "App"; Enabled := true;
     JMX := [ {| ObjectName := "d"; RootMetricName := ""; Metrics := [] |} ] |}.

Definition scenarioSimple : list Out.domainOutput :=
  Eval vm_compute in
    match parseJavaAgentJmxDefinition scenario with
    | Ok (out, _) => out
    | Panic _ => []
    end.

Definition scenarioReversedResult : reduction :=
  Eval vm_compute in
    match reduceFrom (reversed scenario) (JMX (reversed scenario)) (∅, emptyHeap) with
    | Ok st => st
    | Panic _ => (∅, emptyHeap)
    end.

(** Three entities, given by their name and the sizes of their metric sets. *)
Definition sampleEntities : list (string * list nat) :=
  [ ("small", [1; 2]); ("big", [150; 60]); ("empty", []) ].

(** * Properties *)

(** ** Reading the model through the heap *)

Lemma eventTypeAt_heap st domain :
  eventTypeAt st domain = l ← st.1 !! domain; EventType <$> domainObjs st.2 !! l.
Proof.
  unfold eventTypeAt, model. rewrite lookup_omap.
  destruct (st.1 !! domain) as [l|]; simpl; [|done].
  unfold domainGroupOf. by destruct (domainObjs st.2 !! l).
Qed.

Lemma queryGroup_heap st domain query :
  queryGroup (model st) domain query
  = b ← beanAt st domain query; AttributesMap <$> beanObjs st.2 !! b.
Proof.
  unfold queryGroup, beanAt, model. rewrite lookup_omap.
  destruct (st.1 !! domain) as [l|]; simpl; [|done].
  unfold domainGroupOf. destruct (domainObjs st.2 !! l) as [dobj|]; simpl; [|done].
  unfold queryGroupsOf. rewrite lookup_omap.
  by destruct (BeansMap dobj !! query).
Qed.

Lemma wf_empty : wf (∅, emptyHeap).
Proof. split; simpl; intros *; by rewrite lookup_empty. Qed.

Lemma newLoc_fresh {A} (objs : gmap loc A) : objs !! newLoc objs = None.
Proof. apply not_elem_of_dom. apply is_fresh. Qed.

Lemma beanAt_Some st domain query b :
  beanAt st domain query = Some b ↔
  ∃ l dobj, st.1 !! domain = Some l ∧ domainObjs st.2 !! l = Some dobj
            ∧ BeansMap dobj !! query = Some b.
Proof.
  unfold beanAt. split.
  - destruct (st.1 !! domain) as [l|]; simpl; [|done].
    destruct (domainObjs st.2 !! l) as [dobj|] eqn:E; simpl; [|done]. eauto.
  - intros (l & dobj & -> & Hl & Hq). simpl. by rewrite Hl.
Qed.

Lemma beanAt_inj st d1 q1 d2 q2 b :
  wf st → beanAt st d1 q1 = Some b → beanAt st d2 q2 = Some b →
  d1 = d2 ∧ q1 = q2.
Proof.
  intros Hwf (l1 & o1 & Hd1 & Ho1 & Hb1)%beanAt_Some (l2 & o2 & Hd2 & Ho2 & Hb2)%beanAt_Some.
  destruct (wf_bean_inj _ Hwf _ _ _ _ _ _ _ Ho1 Ho2 Hb1 Hb2) as [-> ->].
  split; [|done]. by eapply wf_domain_inj.
Qed.

Lemma beanAt_stored st domain query b :
  wf st → beanAt st domain query = Some b → is_Some (beanObjs st.2 !! b).
Proof.
  intros Hwf (l & dobj & _ & Ho & Hb)%beanAt_Some. by eapply wf_bean.
Qed.

(** ** One attribute *)

Lemma result_bind_Ok {A B} (r : result A) (k : A → result B) b :
  (r ≫= k) = Ok b ↔ ∃ a, r = Ok a ∧ k a = Ok b.
Proof.
  destruct r as [a|p]; simpl; split.
  - eauto.
  - by intros (? & [= <-] & ?).
  - done.
  - by intros (? & [=] & ?).
Qed.

Lemma index_Ok var xs i x : index var xs i = Ok x ↔ xs !! i = Some x.
Proof. unfold index. destruct (xs !! i); split; congruence. Qed.

Lemma deref_Ok {A} (objs : gmap loc A) p o : deref objs p = Ok o ↔ objs !! p = Some o.
Proof. unfold deref. destruct (objs !! p); split; congruence. Qed.

Ltac inv_step :=
  repeat match goal with
  | H : (_ ≫= _) = Ok _ |- _ => apply result_bind_Ok in H as (? & ? & H)
  | H : index _ _ _ = Ok _ |- _ => apply index_Ok in H
  | H : deref _ _ = Ok _ |- _ => apply deref_Ok in H
  | H : Ok _ = Ok _ |- _ => injection H as H
  end.

Lemma attrStep_present m decl dq dom mg fr a0 fr' b :
  frameInv dq dom fr → thisBean fr = Some b →
  attrStep m decl dq mg fr a0 = Ok fr' →
  frameInv dq dom fr' ∧ is_Some (thisBean fr') ∧
  ∃ q, dq !! 1 = Some q ∧
       attrEffect m decl dom q (TrimSpace a0) (newAttribute mg (TrimSpace a0))
         (frameState fr) (frameState fr').
Proof.
  intros (Hwf & Hdom & Hb) Eb Hstep. rewrite Eb in Hb.
  destruct Hb as (q & Hq & Hat).
  unfold attrStep in Hstep. rewrite Eb in Hstep. inv_step.
  rename x into bean, H into Hbean.
  assert (Hqg : queryGroup (model (frameState fr)) dom q = Some (AttributesMap bean)).
  { rewrite queryGroup_heap, Hat. simpl. by rewrite Hbean. }
  assert (Hev : is_Some (eventTypeAt (frameState fr) dom)).
  { rewrite eventTypeAt_heap.
    pose proof Hat as (l & dobj & Hl & Ho & _)%beanAt_Some.
    rewrite Hl. simpl in *. rewrite Ho. simpl. eauto. }
  destruct (AttributesMap bean !! TrimSpace a0) as [old|] eqn:Ea.
  - inv_step. subst fr'. split; [|split; [by rewrite Eb|]].
    { split; [done|split; [done|]]. rewrite Eb. eauto. }
    exists q. split; [done|]. split; [|split].
    + intros d' q'. case_decide as Hd; [|done]. destruct Hd as [-> ->].
      rewrite Hqg. simpl. unfold insertIfAbsent. by rewrite Ea.
    + destruct Hev as [ev Hev]. by rewrite Hev.
    + done.
  - inv_step. subst fr'. unfold frameState in *. simpl in *.
    assert (Hat' : ∀ d' q',
      beanAt (thisDomainMap fr,
              {| domainObjs := domainObjs (mem fr);
                 beanObjs := <[b:={| AttributesMap :=
                     <[TrimSpace a0:=newAttribute mg (TrimSpace a0)]> (AttributesMap bean) |}]>
                   (beanObjs (mem fr)) |}) d' q'
      = beanAt (thisDomainMap fr, mem fr) d' q') by done.
    split; [|split; [by eauto|]].
    { split; [|split; [done|]].
      - destruct Hwf as [W1 W2 W3 W4]. split; simpl in *; [done| |done|done].
        intros l dobj q0 b0 Hl Hq0. destruct (decide (b0 = b)) as [->|Hne].
        + rewrite lookup_insert_eq. eauto.
        + rewrite lookup_insert_ne by done. eauto.
      - exists q. by rewrite Hat'. }
    exists q. split; [done|]. split; [|split].
    + intros d' q'. rewrite !queryGroup_heap, Hat'. simpl.
      case_decide as Hd.
      * destruct Hd as [-> ->]. rewrite Hat. simpl. rewrite lookup_insert_eq.
        simpl. rewrite Hbean. simpl. unfold insertIfAbsent. by rewrite Ea.
      * destruct (beanAt (thisDomainMap fr, mem fr) d' q') as [b'|] eqn:Eb'; simpl; [|done].
        rewrite lookup_insert_ne; [done|]. intros <-.
        destruct (beanAt_inj _ _ _ _ _ _ Hwf Hat Eb') as [<- <-]. tauto.
    + destruct Hev as [ev Hev]. rewrite Hev. simpl.
      rewrite eventTypeAt_heap in *. done.
    + intros d' _. by rewrite !eventTypeAt_heap.
Qed.

Lemma attrStep_new_domain m decl dq dom mg fr a0 fr' :
  frameInv dq dom fr → thisBean fr = None → thisDomain fr = None →
  attrStep m decl dq mg fr a0 = Ok fr' →
  frameInv dq dom fr' ∧ is_Some (thisBean fr') ∧
  ∃ q, dq !! 1 = Some q ∧
       attrEffect m decl dom q (TrimSpace a0) (newAttribute mg (TrimSpace a0))
         (frameState fr) (frameState fr').
Proof.
  intros (Hwf & Hdom & Hb) Eb Ed Hstep. rewrite Eb, Ed in Hb.
  destruct Hb as [Hnone _].
  unfold attrStep in Hstep. rewrite Eb, Ed in Hstep. inv_step.
  rename x into q, x0 into ev, x1 into q2, x2 into dom2.
  assert (q2 = q) as -> by congruence. assert (dom2 = dom) as -> by congruence.
  destruct fr as [tdm oD oB [dobjs bobjs]]. simpl in *. subst oD oB fr'.
  unfold frameState in *. simpl in *.
  set (b := newLoc bobjs). set (d := newLoc dobjs).
  assert (Hfb : bobjs !! b = None) by apply newLoc_fresh.
  assert (Hfd : dobjs !! d = None) by apply newLoc_fresh.
  destruct Hwf as [W1 W2 W3 W4]. simpl in *.
  assert (Hdn : ∀ d0, tdm !! d0 ≠ Some d).
  { intros d0 Hd0. apply W1 in Hd0 as [? ?]. congruence. }
  assert (Hbn : ∀ l dobj q0, dobjs !! l = Some dobj → BeansMap dobj !! q0 ≠ Some b).
  { intros l dobj q0 Hl Hq0. destruct (W2 _ _ _ _ Hl Hq0). congruence. }
  assert (Hwf' : wf (<[dom:=d]> tdm,
     {| domainObjs := <[d:={| EventType := ev; BeansMap := {[q := b]} |}]> dobjs;
        beanObjs := <[b:={| AttributesMap :=
           {[TrimSpace a0 := newAttribute mg (TrimSpace a0)]} |}]> bobjs |})).
  { split; simpl.
    - intros d0 l. rewrite lookup_insert. case_decide; intros Hl; simplify_eq.
      + rewrite lookup_insert_eq. eauto.
      + rewrite lookup_insert_is_Some. right. split; [|eauto]. intros <-. by eapply Hdn.
    - intros l dobj q0 b0. rewrite lookup_insert. case_decide; intros Hl Hq0; simplify_eq.
      + simpl in Hq0. apply lookup_singleton_Some in Hq0 as [<- <-].
        rewrite lookup_insert_eq. eauto.
      + rewrite lookup_insert_is_Some. right. split; [|eauto]. intros <-. by eapply Hbn.
    - intros d1 d2 l. rewrite !lookup_insert.
      repeat case_decide; intros E1 E2; simplify_eq; try done.
      + by apply Hdn in E2.
      + by apply Hdn in E1.
      + eauto.
    - intros l1 l2 o1 o2 q1 q2 b0. rewrite !lookup_insert.
      repeat case_decide; intros E1 E2 E3 E4; simplify_eq; simpl in *.
      + apply lookup_singleton_Some in E3 as [<- <-].
        apply lookup_singleton_Some in E4 as [<- _]. done.
      + apply lookup_singleton_Some in E3 as [<- <-]. by eapply Hbn in E4.
      + apply lookup_singleton_Some in E4 as [<- <-]. by eapply Hbn in E3.
      + eauto. }
  assert (Hat : ∀ d' q',
    beanAt (<[dom:=d]> tdm,
     {| domainObjs := <[d:={| EventType := ev; BeansMap := {[q := b]} |}]> dobjs;
        beanObjs := <[b:={| AttributesMap :=
           {[TrimSpace a0 := newAttribute mg (TrimSpace a0)]} |}]> bobjs |}) d' q'
    = if decide (d' = dom) then (if decide (q' = q) then Some b else None)
      else beanAt (tdm, {| domainObjs := dobjs; beanObjs := bobjs |}) d' q').
  { intros d' q'. unfold beanAt. simpl. rewrite lookup_insert.
    destruct (decide (dom = d')) as [<-|Hne].
    - rewrite decide_True by done. simpl. rewrite lookup_insert_eq. simpl.
      rewrite lookup_singleton. by repeat case_decide.
    - rewrite decide_False by done. destruct (tdm !! d') as [l|] eqn:El; simpl; [|done].
      rewrite lookup_insert_ne; [done|]. intros <-. by eapply Hdn. }
  split; [|split; [by eauto|]].
  { split; [done|]. split; [done|]. exists q. split; [done|].
    rewrite Hat. by rewrite !decide_True. }
  exists q. split; [done|]. split; [|split].
  - intros d' q'. rewrite !queryGroup_heap, Hat. simpl.
    assert (Hold : ∀ q0,
      beanAt (tdm, {| domainObjs := dobjs; beanObjs := bobjs |}) dom q0 = None).
    { intros q0. unfold beanAt. simpl. by rewrite Hnone. }
    rewrite (Hold q). simpl. destruct (decide (d' = dom)) as [->|Hne].
    + destruct (decide (q' = q)) as [->|Hne'].
      * rewrite decide_True by done. simpl. rewrite lookup_insert_eq. simpl.
        unfold insertIfAbsent. rewrite lookup_empty. by rewrite insert_empty.
      * rewrite decide_False by tauto. by rewrite Hold.
    + rewrite decide_False by tauto.
      destruct (beanAt (tdm, {| domainObjs := dobjs; beanObjs := bobjs |}) d' q') as [b'|] eqn:Eb';
        simpl; [|done].
      rewrite lookup_insert_ne; [done|]. intros <-.
      apply beanAt_Some in Eb' as (l & dobj & _ & Hl & Hq'). by eapply Hbn.
  - rewrite !eventTypeAt_heap. simpl. rewrite Hnone. simpl.
    exists ev. split; [done|]. rewrite lookup_insert_eq. simpl. by rewrite lookup_insert_eq.
  - intros d' Hne. rewrite !eventTypeAt_heap. simpl.
    rewrite lookup_insert_ne by done.
    destruct (tdm !! d') as [l|] eqn:El; simpl; [|done].
    rewrite lookup_insert_ne; [done|]. intros <-. by eapply Hdn.
Qed.

Lemma attrStep_new_bean m decl dq dom mg fr a0 fr' l :
  frameInv dq dom fr → thisBean fr = None → thisDomain fr = Some l →
  attrStep m decl dq mg fr a0 = Ok fr' →
  frameInv dq dom fr' ∧ is_Some (thisBean fr') ∧
  ∃ q, dq !! 1 = Some q ∧
       attrEffect m decl dom q (TrimSpace a0) (newAttribute mg (TrimSpace a0))
         (frameState fr) (frameState fr').
Proof.
  intros (Hwf & Hdom & Hb) Eb Ed Hstep. rewrite Eb, Ed in Hb.
  destruct Hb as [Hl Hq]. destruct (Hq l eq_refl) as (q & Hq1 & Hnone). clear Hq.
  unfold attrStep in Hstep. rewrite Eb, Ed in Hstep. inv_step.
  rename x into dobj, x0 into q2, H into Hdobj.
  assert (q2 = q) as -> by congruence.
  destruct fr as [tdm oD oB [dobjs bobjs]]. simpl in *. subst oD oB fr'.
  unfold frameState in *. simpl in *.
  set (b := newLoc bobjs).
  assert (Hfb : bobjs !! b = None) by apply newLoc_fresh.
  assert (Hqn : BeansMap dobj !! q = None).
  { unfold beanAt in Hnone. simpl in Hnone. rewrite Hl in Hnone. simpl in Hnone.
    by rewrite Hdobj in Hnone. }
  destruct Hwf as [W1 W2 W3 W4]. simpl in *.
  assert (Hbn : ∀ l0 dobj0 q0, dobjs !! l0 = Some dobj0 → BeansMap dobj0 !! q0 ≠ Some b).
  { intros l0 dobj0 q0 Hl0 Hq0. destruct (W2 _ _ _ _ Hl0 Hq0). congruence. }
  set (dobj' := {| EventType := EventType dobj; BeansMap := <[q:=b]> (BeansMap dobj) |}).
  set (bean' := {| AttributesMap := {[TrimSpace a0 := newAttribute mg (TrimSpace a0)]} |}).
  assert (Hwf' : wf (tdm, {| domainObjs := <[l:=dobj']> dobjs;
                            beanObjs := <[b:=bean']> bobjs |})).
  { split; simpl.
    - intros d0 l0 Hl0. rewrite lookup_insert_is_Some'. eauto.
    - intros l0 dobj0 q0 b0. rewrite lookup_insert. case_decide; intros E1 E2; simplify_eq.
      + simpl in E2. rewrite lookup_insert in E2. case_decide; simplify_eq.
        * rewrite lookup_insert_eq. eauto.
        * rewrite lookup_insert_is_Some'. eauto.
      + rewrite lookup_insert_is_Some'. eauto.
    - done.
    - intros l1 l2 o1 o2 q1 q2 b0. rewrite !lookup_insert.
      repeat case_decide; intros E1 E2 E3 E4; simplify_eq; simpl in *.
      + apply lookup_insert_Some in E3 as [[<- <-]|[? E3]];
          apply lookup_insert_Some in E4 as [[<- ?]|[? E4]]; simplify_eq; try done.
        * by eapply Hbn in E4.
        * by eapply Hbn in E3.
        * eauto.
      + apply lookup_insert_Some in E3 as [[<- <-]|[? E3]].
        * by eapply Hbn in E4.
        * eauto.
      + apply lookup_insert_Some in E4 as [[<- <-]|[? E4]].
        * by eapply Hbn in E3.
        * eauto.
      + eauto. }
  assert (Hat : ∀ d' q',
    beanAt (tdm, {| domainObjs := <[l:=dobj']> dobjs; beanObjs := <[b:=bean']> bobjs |}) d' q'
    = if decide (d' = dom ∧ q' = q) then Some b
      else beanAt (tdm, {| domainObjs := dobjs; beanObjs := bobjs |}) d' q').
  { intros d' q'. unfold beanAt. simpl.
    destruct (tdm !! d') as [l'|] eqn:El'; simpl.
    - rewrite lookup_insert. destruct (decide (l = l')) as [<-|Hne]; simpl.
      + assert (d' = dom) as -> by eauto. rewrite Hdobj. simpl.
        rewrite lookup_insert. destruct (decide (q = q')) as [<-|Hne'].
        * by rewrite decide_True.
        * rewrite decide_False; [done|]. intros [_ ?]. done.
      + rewrite decide_False; [done|]. intros [-> _]. congruence.
    - rewrite decide_False; [done|]. intros [-> _]. congruence. }
  split; [|split; [by eauto|]].
  { split; [done|]. split; [done|]. exists q. split; [done|].
    rewrite Hat. by rewrite decide_True. }
  exists q. split; [done|]. split; [|split].
  - intros d' q'. rewrite !queryGroup_heap, Hat, Hnone. simpl.
    case_decide as Hd.
    + simpl. rewrite lookup_insert_eq. simpl.
      unfold insertIfAbsent. rewrite lookup_empty. by rewrite insert_empty.
    + destruct (beanAt (tdm, {| domainObjs := dobjs; beanObjs := bobjs |}) d' q') as [b'|] eqn:Eb';
        simpl; [|done].
      rewrite lookup_insert_ne; [done|]. intros <-.
      apply beanAt_Some in Eb' as (l0 & dobj0 & _ & Hl0 & Hq'). by eapply Hbn.
  - rewrite !eventTypeAt_heap. simpl. rewrite Hl. simpl.
    rewrite Hdobj, lookup_insert_eq. done.
  - intros d' Hne. rewrite !eventTypeAt_heap. simpl.
    destruct (tdm !! d') as [l'|] eqn:El'; simpl; [|done].
    rewrite lookup_insert_ne; [done|]. intros <-. apply Hne. eauto.
Qed.

Lemma attrStep_spec m decl dq dom mg fr a0 fr' :
  frameInv dq dom fr →
  attrStep m decl dq mg fr a0 = Ok fr' →
  frameInv dq dom fr' ∧ is_Some (thisBean fr') ∧
  ∃ q, dq !! 1 = Some q ∧
       attrEffect m decl dom q (TrimSpace a0) (newAttribute mg (TrimSpace a0))
         (frameState fr) (frameState fr').
Proof.
  intros Hinv Hstep.
  destruct (thisBean fr) as [b|] eqn:Eb.
  - by eapply attrStep_present.
  - destruct (thisDomain fr) as [l|] eqn:Ed.
    + by eapply attrStep_new_bean.
    + by eapply attrStep_new_domain.
Qed.

(** ** One declaration *)

Lemma Split_nonempty s c : Split s c ≠ [].
Proof.
  destruct s as [|a s]; simpl; [done|].
  destruct (Ascii.eqb a c); [done|]. by destruct (Split s c).
Qed.

Lemma entriesEffect_nil m decl dom q st : entriesEffect m decl dom q [] st st.
Proof.
  split; [|done]. intros d' q'. case_decide as Hd; [|done]. by destruct Hd as [-> ->].
Qed.

Lemma resolved_trans m decl q o1 o2 o3 :
  resolved m decl q o1 o2 → resolved m decl q o2 o3 → resolved m decl q o1 o3.
Proof.
  unfold resolved. destruct o1 as [ev1|].
  - intros ->. done.
  - intros (ev & Hev & ->) ->. eauto.
Qed.

Lemma entriesEffect_app m decl dom q L1 L2 st st1 st2 :
  entriesEffect m decl dom q L1 st st1 →
  entriesEffect m decl dom q L2 st1 st2 →
  entriesEffect m decl dom q (L1 ++ L2) st st2.
Proof.
  intros (Hq1 & He1 & Ho1) (Hq2 & He2 & Ho2). split; [|split].
  - intros d' q'. rewrite Hq2. case_decide as Hd.
    + rewrite Hq1, decide_True by done. unfold addAll. by rewrite foldl_app.
    + rewrite Hq1. by rewrite decide_False.
  - destruct L1 as [|x1 L1]; simpl.
    + rewrite <- He1. done.
    + destruct L2 as [|x2 L2]; simpl in *.
      * by rewrite He2.
      * by eapply resolved_trans.
  - intros d' Hne. rewrite Ho2, Ho1; done.
Qed.

Lemma attrEffect_entries m decl dom q a e st st' :
  attrEffect m decl dom q a e st st' → entriesEffect m decl dom q [(a, e)] st st'.
Proof. intros (Hq & He & Ho). split; [|done]. done. Qed.

Lemma attrLoop_spec m decl dq dom mg pieces fr fr' :
  frameInv dq dom fr →
  forRange (attrStep m decl dq mg) pieces fr = Ok fr' →
  frameInv dq dom fr' ∧
  (pieces = [] → fr' = fr) ∧
  (pieces ≠ [] →
   is_Some (thisBean fr') ∧
   ∃ q, dq !! 1 = Some q ∧
        entriesEffect m decl dom q
          ((fun a => (a, newAttribute mg a)) <$> (TrimSpace <$> pieces))
          (frameState fr) (frameState fr')).
Proof.
  revert fr. induction pieces as [|a0 pieces IH]; intros fr Hinv Hrun; simpl in Hrun.
  - injection Hrun as <-. done.
  - inv_step. rename x into fr1, H into Hstep.
    destruct (attrStep_spec _ _ _ _ _ _ _ _ Hinv Hstep) as (Hinv1 & Hb1 & q & Hq & Heff).
    destruct (IH _ Hinv1 Hrun) as (Hinv' & Hnil & Hcons).
    split; [done|]. split; [done|]. intros _.
    destruct pieces as [|a1 pieces].
    + rewrite (Hnil eq_refl). split; [done|]. exists q. split; [done|].
      by apply attrEffect_entries.
    + destruct (Hcons ltac:(done)) as (Hb' & q' & Hq' & Heff').
      split; [done|]. exists q. split; [done|].
      assert (q' = q) as -> by congruence.
      change (?f <$> (TrimSpace <$> a0 :: ?l))
        with ([(TrimSpace a0, newAttribute mg (TrimSpace a0))] ++ (f <$> (TrimSpace <$> l))).
      eapply entriesEffect_app; [by apply attrEffect_entries|done].
Qed.

Lemma metricLoop_spec m decl dq dom mgs fr fr' :
  frameInv dq dom fr →
  forRange (metricStep m decl dq) mgs fr = Ok fr' →
  frameInv dq dom fr' ∧
  (mgs = [] → fr' = fr) ∧
  (mgs ≠ [] →
   ∃ q, dq !! 1 = Some q ∧
        entriesEffect m decl dom q (mgs ≫= entriesOf)
          (frameState fr) (frameState fr')).
Proof.
  revert fr. induction mgs as [|mg mgs IH]; intros fr Hinv Hrun; simpl in Hrun.
  - injection Hrun as <-. done.
  - inv_step. rename x into fr1, H into Hstep.
    unfold metricStep in Hstep.
    destruct (attrLoop_spec _ _ _ _ _ _ _ _ Hinv Hstep) as (Hinv1 & _ & Hcons).
    destruct (Hcons (Split_nonempty _ _)) as (_ & q & Hq & Heff).
    destruct (IH _ Hinv1 Hrun) as (Hinv' & Hnil & Hcons').
    split; [done|]. split; [done|]. intros _.
    exists q. split; [done|]. simpl.
    eapply entriesEffect_app; [exact Heff|].
    destruct mgs as [|mg1 mgs].
    + rewrite (Hnil eq_refl). apply entriesEffect_nil.
    + destruct (Hcons' ltac:(done)) as (q' & Hq' & Heff').
      assert (q' = q) as -> by congruence. done.
Qed.

Lemma declEntries_nonempty decl : Metrics decl ≠ [] → declEntries decl ≠ [].
Proof.
  unfold declEntries. destruct (Metrics decl) as [|mg mgs]; [done|]. intros _. simpl.
  unfold entriesOf, attrNames.
  pose proof (Split_nonempty (Attributes mg) ",") as Hne.
  destruct (Split (Attributes mg) ","); done.
Qed.

Lemma domainOf_lookup decl : Split (ObjectName decl) ":" !! 0 = Some (domainOf decl).
Proof.
  unfold domainOf. pose proof (Split_nonempty (ObjectName decl) ":") as Hne.
  by destruct (Split (ObjectName decl) ":").
Qed.

(** A declaration without metric groups changes nothing; one with metric
    groups has a query and adds its entries to the group of its domain and
    query. *)
Lemma declStep_spec m st decl st' :
  wf st → declStep m st decl = Ok st' →
  wf st' ∧
  (Metrics decl = [] → st' = st) ∧
  (Metrics decl ≠ [] →
   ∃ q, queryOf decl = Some q ∧
        entriesEffect m decl (domainOf decl) q (declEntries decl) st st').
Proof.
  intros Hwf Hstep. destruct st as [tdm h]. unfold declStep in Hstep.
  inv_step. rename x into dom, x0 into fr0, x1 into fr', H into Hdom, H0 into Hfr0, H1 into Hrun.
  subst st'.
  assert (dom = domainOf decl) as ->.
  { rewrite domainOf_lookup in Hdom. congruence. }
  assert (Hinv : frameInv (Split (ObjectName decl) ":") (domainOf decl) fr0
                 ∧ frameState fr0 = (tdm, h)).
  { destruct (tdm !! domainOf decl) as [d|] eqn:Ed.
    - inv_step. rename x into dobj, x0 into q, H into Hdobj, H0 into Hq. subst fr0.
      split; [|done]. split; [done|]. split; [done|]. simpl.
      assert (Hat : beanAt (tdm, h) (domainOf decl) q = BeansMap dobj !! q).
      { unfold beanAt. simpl. rewrite Ed. simpl. by rewrite Hdobj. }
      destruct (BeansMap dobj !! q) as [b|] eqn:Eb.
      + exists q. done.
      + split; [done|]. intros l _. exists q. done.
    - inv_step. subst fr0. split; [|done]. split; [done|]. split; [done|]. simpl.
      split; [done|]. done. }
  destruct Hinv as [Hinv Hst0].
  destruct (metricLoop_spec _ _ _ _ _ _ _ Hinv Hrun) as (Hinv' & Hnil & Hcons).
  split; [apply Hinv'|]. split.
  - intros Hm. rewrite (Hnil Hm). done.
  - intros Hm. destruct (Hcons Hm) as (q & Hq & Heff). exists q. split; [done|].
    rewrite Hst0 in Heff. done.
Qed.

(** ** The whole declaration list *)

Lemma entriesFor_cons d q decl decls :
  entriesFor d q (decl :: decls)
  = (if decide (targets d q decl) then declEntries decl else [])
    ++ entriesFor d q decls.
Proof.
  unfold entriesFor, groupsFor. rewrite filter_cons.
  case_decide; [|done]. simpl. by rewrite bind_app.
Qed.

Lemma reduceFrom_spec m decls st st' :
  wf st → reduceFrom m decls st = Ok st' →
  wf st' ∧
  (∀ d q, queryGroup (model st') d q
          = addAll (entriesFor d q decls) (queryGroup (model st) d q)) ∧
  (∀ d, eventSpec m decls d (eventTypeAt st d) (eventTypeAt st' d)) ∧
  (∀ decl, decl ∈ decls → Metrics decl ≠ [] → is_Some (queryOf decl)).
Proof.
  unfold reduceFrom. revert st.
  induction decls as [|decl decls IH]; intros st Hwf Hrun; simpl in Hrun.
  - injection Hrun as <-. split; [done|]. split; [done|]. split.
    + intros d. unfold eventSpec. simpl. by destruct (eventTypeAt st d).
    + by intros decl ?%elem_of_nil.
  - inv_step. rename x into st1, H into Hstep.
    destruct (declStep_spec _ _ _ _ Hwf Hstep) as (Hwf1 & Hnil & Hcons).
    destruct (IH _ Hwf1 Hrun) as (Hwf' & Hq' & He' & Hall').
    split; [done|].
    destruct (decide (Metrics decl = [])) as [Hm|Hm].
    + rewrite (Hnil Hm) in *. split; [|split].
      * intros d q. rewrite Hq', entriesFor_cons.
        assert (declEntries decl = []) as -> by (unfold declEntries; by rewrite Hm).
        by destruct (decide (targets d q decl)).
      * intros d. specialize (He' d). unfold eventSpec in *.
        rewrite filter_cons. rewrite decide_False; [done|]. intros [_ ?]. done.
      * intros decl' [->|Hin]%elem_of_cons Hm'; [done|]. by apply Hall'.
    + destruct (Hcons Hm) as (q0 & Hq0 & Hqg & Hev & Hoth). split; [|split].
      * intros d q. rewrite Hq', entriesFor_cons, Hqg. unfold addAll.
        rewrite foldl_app. case_decide as Hd.
        -- destruct Hd as [-> ->]. rewrite decide_True; [done|]. by split.
        -- rewrite decide_False; [done|]. intros [? ?]. apply Hd. split; congruence.
      * intros d. specialize (He' d). unfold eventSpec in *.
        rewrite filter_cons.
        destruct (decide (d = domainOf decl)) as [->|Hne].
        -- rewrite decide_True by (by split). simpl.
           pose proof (declEntries_nonempty _ Hm) as Hne.
           destruct (declEntries decl) as [|x L]; [done|].
           unfold resolved in Hev.
           destruct (eventTypeAt st (domainOf decl)) as [ev|].
           ++ by rewrite Hev in He'.
           ++ destruct Hev as (ev & Hget & Hev1). rewrite Hev1 in He'.
              exists q0. split; [done|]. unfold resolved. eauto.
        -- rewrite decide_False by (intros [? _]; congruence).
           rewrite (Hoth d Hne) in He'. done.
      * intros decl' [->|Hin]%elem_of_cons Hm'; [by rewrite Hq0|]. by apply Hall'.
Qed.

(** What a run of attributes leaves in a query group: the entries it had,
    then for every new name the first entry offered for it. *)
Lemma insertIfAbsent_union a e (am : gmap string attributeReducer) :
  insertIfAbsent a e am = am ∪ {[a := e]}.
Proof.
  unfold insertIfAbsent. apply map_eq. intros k.
  rewrite lookup_union. destruct (am !! a) as [x|] eqn:Ea.
  - destruct (decide (k = a)) as [->|Hne].
    + rewrite Ea. by rewrite lookup_singleton_eq.
    + rewrite lookup_singleton_ne by done. by destruct (am !! k).
  - rewrite lookup_insert. case_decide as Hk.
    + subst k. rewrite Ea. by rewrite lookup_singleton_eq.
    + rewrite lookup_singleton_ne by done. by destruct (am !! k).
Qed.

Lemma addAll_union L o :
  default ∅ (addAll L o) = default ∅ o ∪ list_to_map L.
Proof.
  unfold addAll. revert o. induction L as [|[a e] L IH]; intros o; simpl.
  - by rewrite (right_id_L ∅ (∪)).
  - rewrite IH. unfold addOne. simpl. rewrite insertIfAbsent_union.
    rewrite <- (assoc_L (∪)). f_equal. by rewrite insert_union_singleton_l.
Qed.

Lemma addAll_None L o : addAll L o = None ↔ L = [] ∧ o = None.
Proof.
  unfold addAll. revert o. induction L as [|x L IH]; intros o; simpl.
  - split; [by intros ->|by intros [_ ->]].
  - rewrite IH. unfold addOne. split; [by intros [_ ?]|by intros [? _]].
Qed.

Lemma attributeEntry_default im d q a :
  attributeEntry im d q a = default ∅ (queryGroup im d q) !! a.
Proof. unfold attributeEntry. by destruct (queryGroup im d q). Qed.

Lemma list_to_map_tagged {B} (f : string → B) (l : list string) a :
  (list_to_map ((fun x => (x, f x)) <$> l) : gmap string B) !! a
  = if decide (a ∈ l) then Some (f a) else None.
Proof.
  induction l as [|x l IH].
  - case_decide as Hin; [by apply elem_of_nil in Hin|done].
  - rewrite fmap_cons, list_to_map_cons, lookup_insert.
    destruct (decide (x = a)) as [->|Hne].
    + rewrite decide_True; [done|]. apply list_elem_of_here.
    + rewrite IH. destruct (decide (a ∈ l)) as [Hin|Hin].
      * rewrite decide_True; [done|]. by apply list_elem_of_further.
      * rewrite decide_False; [done|]. intros [?|?]%elem_of_cons; [congruence|done].
Qed.

Lemma list_to_map_groups (G : list metricsDefinitionParser) a :
  (list_to_map (G ≫= entriesOf) : gmap string attributeReducer) !! a
  = (fun mg => newAttribute mg a) <$> head (filter (fun mg => a ∈ attrNames mg) G).
Proof.
  induction G as [|mg G IH].
  - done.
  - rewrite bind_cons, list_to_map_app, lookup_union, IH, filter_cons.
    unfold entriesOf at 1. rewrite list_to_map_tagged.
    destruct (decide (a ∈ attrNames mg)); simpl.
    + by destruct (_ <$> head _).
    + by destruct (_ <$> head _).
Qed.

Lemma reduceJavaAgentYaml_Ok m st err :
  reduceJavaAgentYaml m = Ok (st, err) ↔
  reduceFrom m (JMX m) (∅, emptyHeap) = Ok st ∧ err = None.
Proof.
  unfold reduceJavaAgentYaml.
  destruct (reduceFrom m (JMX m) (∅, emptyHeap)) as [st0|p]; simpl; split.
  - intros [= -> <-]. done.
  - intros [[= ->] ->]. done.
  - done.
  - by intros [? _].
Qed.

Lemma model_empty : model (∅, emptyHeap) = ∅.
Proof. unfold model. simpl. apply omap_empty. Qed.

Lemma forRange_cons {A S} (body : S → A → result S) x xs s :
  forRange body (x :: xs) s = (s' ← body s x; forRange body xs s').
Proof. reflexivity. Qed.

Lemma forRange_app {A S} (body : S → A → result S) xs ys s :
  forRange body (xs ++ ys) s = (s' ← forRange body xs s; forRange body ys s').
Proof.
  revert s. induction xs as [|x xs IH]; intros s; simpl; [done|].
  destruct (body s x); simpl; [apply IH|done].
Qed.

Lemma queryGroup_empty d q : queryGroup (model (∅, emptyHeap)) d q = None.
Proof. unfold queryGroup. by rewrite model_empty, lookup_empty. Qed.

Lemma eventTypeAt_empty d : eventTypeAt (∅, emptyHeap) d = None.
Proof. unfold eventTypeAt. by rewrite model_empty, lookup_empty. Qed.

(** The entry of every domain, query and attribute after a run from the
    empty reduction. *)
Lemma attributeEntry_run m decls st d q a :
  reduceFrom m decls (∅, emptyHeap) = Ok st →
  attributeEntry (model st) d q a
  = (fun mg => newAttribute mg a)
      <$> head (filter (fun mg => a ∈ attrNames mg) (groupsFor d q decls)).
Proof.
  intros Hrun.
  destruct (reduceFrom_spec _ _ _ _ wf_empty Hrun) as (_ & Hq & _).
  rewrite attributeEntry_default, Hq, addAll_union, queryGroup_empty. simpl.
  rewrite (left_id_L ∅ (∪)). apply list_to_map_groups.
Qed.

(** Entries are kept by whatever is reduced afterwards. *)
Lemma attributeEntry_kept m decls st st' d q a e :
  wf st → reduceFrom m decls st = Ok st' →
  attributeEntry (model st) d q a = Some e →
  attributeEntry (model st') d q a = Some e.
Proof.
  intros Hwf Hrun.
  destruct (reduceFrom_spec _ _ _ _ Hwf Hrun) as (_ & Hq & _).
  rewrite !attributeEntry_default, Hq, addAll_union, lookup_union.
  intros ->. by destruct (list_to_map _ !! a).
Qed.

Lemma eventTypeAt_kept m decls st st' d ev :
  wf st → reduceFrom m decls st = Ok st' →
  eventTypeAt st d = Some ev → eventTypeAt st' d = Some ev.
Proof.
  intros Hwf Hrun Hev.
  destruct (reduceFrom_spec _ _ _ _ Hwf Hrun) as (_ & _ & He & _).
  specialize (He d). unfold eventSpec in He. by rewrite Hev in He.
Qed.

Lemma reduceFrom_app m pre post st st' :
  reduceFrom m (pre ++ post) st = Ok st' ↔
  ∃ st1, reduceFrom m pre st = Ok st1 ∧ reduceFrom m post st1 = Ok st'.
Proof. unfold reduceFrom. rewrite forRange_app. apply result_bind_Ok. Qed.

(** The reduction returns when every pattern has a colon and the resolver
    returns for every declaration. *)
Lemma attrStep_returns m decl dq dom mg fr a0 q ev :
  frameInv dq dom fr → dq !! 1 = Some q →
  getEventName (Name m) (RootMetricName decl) q = Ok ev →
  ∃ fr', attrStep m decl dq mg fr a0 = Ok fr'.
Proof.
  intros (Hwf & Hdom & Hb) Hq Hev. unfold attrStep, index, deref.
  destruct (thisBean fr) as [b|] eqn:Eb.
  - destruct Hb as (q' & _ & Hat).
    destruct (beanAt_stored _ _ _ _ Hwf Hat) as [bean Hbean]. simpl in Hbean.
    rewrite Hbean. cbn [mbind result_bind].
    destruct (AttributesMap bean !! TrimSpace a0); eauto.
  - destruct Hb as [Hl _]. destruct (thisDomain fr) as [l|] eqn:Ed.
    + destruct (wf_domain _ Hwf _ _ Hl) as [dobj Hdobj]. simpl in Hdobj.
      rewrite Hdobj, Hq. cbn [mbind result_bind]. eauto.
    + rewrite Hq, Hdom. cbn [mbind result_bind]. rewrite Hev.
      cbn [mbind result_bind]. eauto.
Qed.

Lemma attrLoop_returns m decl dq dom mg pieces fr q ev :
  frameInv dq dom fr → dq !! 1 = Some q →
  getEventName (Name m) (RootMetricName decl) q = Ok ev →
  ∃ fr', forRange (attrStep m decl dq mg) pieces fr = Ok fr'.
Proof.
  intros Hinv Hq Hev. revert fr Hinv.
  induction pieces as [|a0 pieces IH]; intros fr Hinv; [by eexists|].
  destruct (attrStep_returns m decl dq dom mg fr a0 q ev Hinv Hq Hev) as [fr1 Hstep].
  rewrite forRange_cons, Hstep. cbn [mbind result_bind]. apply IH.
  by destruct (attrStep_spec _ _ _ _ _ _ _ _ Hinv Hstep) as [? _].
Qed.

Lemma metricLoop_returns m decl dq dom mgs fr q ev :
  frameInv dq dom fr → dq !! 1 = Some q →
  getEventName (Name m) (RootMetricName decl) q = Ok ev →
  ∃ fr', forRange (metricStep m decl dq) mgs fr = Ok fr'.
Proof.
  intros Hinv Hq Hev. revert fr Hinv.
  induction mgs as [|mg mgs IH]; intros fr Hinv; [by eexists|].
  destruct (attrLoop_returns m decl dq dom mg (Split (Attributes mg) ",") fr q ev
              Hinv Hq Hev) as [fr1 Hstep].
  rewrite forRange_cons.
  change (metricStep m decl dq fr mg)
    with (forRange (attrStep m decl dq mg) (Split (Attributes mg) ",") fr).
  rewrite Hstep. cbn [mbind result_bind]. apply IH.
  by destruct (attrLoop_spec _ _ _ _ _ _ _ _ Hinv Hstep) as [? _].
Qed.

Lemma declStep_returns m st decl q ev :
  wf st → queryOf decl = Some q →
  getEventName (Name m) (RootMetricName decl) q = Ok ev →
  ∃ st', declStep m st decl = Ok st'.
Proof.
  intros Hwf Hq Hev. destruct st as [tdm h]. unfold declStep, index.
  rewrite domainOf_lookup. cbn [mbind result_bind].
  assert (Hfr : ∃ fr0,
    match tdm !! domainOf decl with
    | Some d =>
        deref (domainObjs h) d ≫= λ dobj,
        match Split (ObjectName decl) ":" !! 1 with
        | Some x => Ok x
        | None => Panic (IndexOutOfRange "domainAndQuery" 1
                           (length (Split (ObjectName decl) ":")))
        end ≫= λ query,
        Ok {| thisDomainMap := tdm; thisDomain := Some d;
              thisBean := BeansMap dobj !! query; mem := h |}
    | None => Ok {| thisDomainMap := tdm; thisDomain := None;
                    thisBean := None; mem := h |}
    end = Ok fr0 ∧ frameInv (Split (ObjectName decl) ":") (domainOf decl) fr0).
  { pose proof (domainOf_lookup decl) as Hdom.
    destruct (tdm !! domainOf decl) as [d|] eqn:Ed.
    - destruct (wf_domain _ Hwf _ _ Ed) as [dobj Hdobj]. simpl in Hdobj.
      unfold deref. rewrite Hdobj. unfold queryOf in Hq. rewrite Hq.
      eexists. split; [reflexivity|]. split; [done|]. split; [done|]. simpl.
      assert (Hat : beanAt (tdm, h) (domainOf decl) q = BeansMap dobj !! q).
      { unfold beanAt. simpl. rewrite Ed. simpl. by rewrite Hdobj. }
      destruct (BeansMap dobj !! q) as [b|] eqn:Eb.
      + exists q. done.
      + split; [done|]. intros l _. exists q. done.
    - eexists. split; [reflexivity|]. split; [done|]. split; [done|]. simpl.
      split; [done|]. done. }
  destruct Hfr as (fr0 & -> & Hinv). cbn [mbind result_bind].
  destruct (metricLoop_returns m decl _ _ (Metrics decl) fr0 q ev Hinv Hq Hev)
    as [fr' ->].
  cbn [mbind result_bind]. eauto.
Qed.

Lemma reduceFrom_returns m decls st :
  wf st →
  (∀ decl, decl ∈ decls →
     ∃ q ev, queryOf decl = Some q ∧
             getEventName (Name m) (RootMetricName decl) q = Ok ev) →
  ∃ st', reduceFrom m decls st = Ok st'.
Proof.
  unfold reduceFrom. revert st.
  induction decls as [|decl decls IH]; intros st Hwf Hall; [by eexists|].
  destruct (Hall decl (list_elem_of_here _ _)) as (q & ev & Hq & Hev).
  destruct (declStep_returns m st decl q ev Hwf Hq Hev) as [st1 Hstep].
  rewrite forRange_cons, Hstep. cbn [mbind result_bind]. apply IH.
  - by destruct (declStep_spec _ _ _ _ Hwf Hstep) as [? _].
  - intros decl' Hin. apply Hall. by apply list_elem_of_further.
Qed.

(** C1: after a successful reduction the entry recorded for a domain, a
    query and an attribute name is the one built from the first metric
    group, in input order, among the declarations targeting that domain and
    query, whose trimmed attribute names contain the name: its kind is
    [convertMetricType] of that group's kind and its metric name is the
    attribute name.  There is an entry exactly when there is such a group,
    an entry present after a prefix of the declarations is still the entry
    at the end (it is never overwritten), and the attribute names of a
    query group are the keys of a map, each held once. *)
Theorem first_metric_group_fixes_kind m st err :
  reduceJavaAgentYaml m = Ok (st, err) →
  (∀ d q a,
     attributeEntry (model st) d q a
     = (fun mg => {| MetricType := convertMetricType (Type_ mg); MetricName := a |})
         <$> head (filter (fun mg => a ∈ attrNames mg) (groupsFor d q (JMX m)))) ∧
  (∀ pre post st1 d q a e,
     JMX m = pre ++ post →
     reduceFrom m pre (∅, emptyHeap) = Ok st1 →
     attributeEntry (model st1) d q a = Some e →
     attributeEntry (model st) d q a = Some e) ∧
  (∀ d q am, queryGroup (model st) d q = Some am → NoDup (map_to_list am).*1).
Proof.
  intros [Hrun _]%reduceJavaAgentYaml_Ok. split; [|split].
  - intros d q a. exact (attributeEntry_run m _ _ d q a Hrun).
  - intros pre post st1 d q a e Hsplit Hpre He.
    rewrite Hsplit in Hrun. apply reduceFrom_app in Hrun as (st1' & Hpre' & Hpost).
    assert (st1' = st1) as -> by congruence.
    destruct (reduceFrom_spec _ _ _ _ wf_empty Hpre) as (Hwf1 & _).
    exact (attributeEntry_kept _ _ _ _ _ _ _ _ Hwf1 Hpost He).
  - intros d q am _. apply NoDup_fst_map_to_list.
Qed.

Lemma first_metric_group_fixes_kind_witness :
  reduceJavaAgentYaml scenario = Ok (scenarioResult, None) ∧
  attributeEntry (model scenarioResult) "domain" "type=Thing,name=A" "count"
  = Some {| MetricType := "gauge"; MetricName := "count" |} ∧
  attributeEntry (model scenarioResult) "domain" "type=Thing,name=A" "errors"
  = Some {| MetricType := "delta"; MetricName := "errors" |}.
Proof.
  assert (H : reduceJavaAgentYaml scenario = Ok (scenarioResult, None))
    by (vm_compute; reflexivity).
  split; [exact H|].
  destruct (first_metric_group_fixes_kind scenario scenarioResult None H) as [Hfirst _].
  split; rewrite Hfirst; vm_compute; reflexivity.
Defined.

Lemma entries_names (G : list metricsDefinitionParser) :
  (G ≫= entriesOf).*1 = G ≫= attrNames.
Proof.
  induction G as [|mg G IH]; [done|].
  rewrite !bind_cons, fmap_app, IH. f_equal.
  unfold entriesOf. rewrite <- list_fmap_compose. apply list_fmap_id.
Qed.

Lemma entries_nil (G : list metricsDefinitionParser) :
  G ≫= entriesOf = [] ↔ G = [].
Proof.
  split; [|by intros ->]. destruct G as [|mg G]; [done|].
  rewrite bind_cons. intros [Hnil _]%app_eq_nil. exfalso.
  unfold entriesOf, attrNames in Hnil.
  apply fmap_nil_inv, fmap_nil_inv in Hnil. by apply Split_nonempty in Hnil.
Qed.

(** The groups and the event types after a run from the empty reduction. *)
Lemma queryGroup_run m decls st d q :
  reduceFrom m decls (∅, emptyHeap) = Ok st →
  dom (default ∅ (queryGroup (model st) d q))
  = (list_to_set (groupsFor d q decls ≫= attrNames) : gset string) ∧
  (is_Some (queryGroup (model st) d q) ↔ groupsFor d q decls ≠ []).
Proof.
  intros Hrun.
  destruct (reduceFrom_spec _ _ _ _ wf_empty Hrun) as (_ & Hq & _).
  specialize (Hq d q). rewrite queryGroup_empty in Hq. split.
  - rewrite Hq, addAll_union. simpl. rewrite (left_id_L ∅ (∪)).
    rewrite dom_list_to_map_L. unfold entriesFor. by rewrite entries_names.
  - rewrite Hq, <- not_eq_None_Some, addAll_None. unfold entriesFor.
    rewrite entries_nil. split; [tauto|]. intros Hne [? _]. done.
Qed.

Lemma eventType_run m decls st d :
  reduceFrom m decls (∅, emptyHeap) = Ok st →
  match head (filter (contributes d) decls) with
  | None => model st !! d = None
  | Some decl =>
      ∃ q ev, queryOf decl = Some q ∧
              getEventName (Name m) (RootMetricName decl) q = Ok ev ∧
              eventType <$> model st !! d = Some ev
  end.
Proof.
  intros Hrun.
  destruct (reduceFrom_spec _ _ _ _ wf_empty Hrun) as (_ & _ & He & _).
  specialize (He d). unfold eventSpec in He. rewrite eventTypeAt_empty in He.
  destruct (head (filter (contributes d) decls)) as [decl|].
  - destruct He as (q & Hq & ev & Hget & Hev). eauto.
  - unfold eventTypeAt in He. by destruct (model st !! d).
Qed.

(** C2: after a successful reduction the attribute names of the query
    group of a domain and a query are exactly the trimmed pieces of the
    attribute strings of the metric groups of the declarations that target
    that domain and query; the group exists exactly when there is such a
    metric group, and its names are the keys of a map, each held once. *)
Theorem query_group_names_are_union m st err :
  reduceJavaAgentYaml m = Ok (st, err) →
  ∀ d q,
    dom (default ∅ (queryGroup (model st) d q))
    = (list_to_set (groupsFor d q (JMX m) ≫= attrNames) : gset string) ∧
    (is_Some (queryGroup (model st) d q) ↔ groupsFor d q (JMX m) ≠ []) ∧
    (∀ am, queryGroup (model st) d q = Some am → NoDup (map_to_list am).*1).
Proof.
  intros [Hrun _]%reduceJavaAgentYaml_Ok d q.
  destruct (queryGroup_run m _ _ d q Hrun) as [Hdom Hsome].
  split; [done|]. split; [done|].
  intros am _. apply NoDup_fst_map_to_list.
Qed.

Lemma query_group_names_are_union_witness :
  reduceJavaAgentYaml scenario = Ok (scenarioResult, None) ∧
  dom (default ∅ (queryGroup (model scenarioResult) "domain" "type=Thing,name=A"))
  = ({[ "count"; "errors" ]} : gset string).
Proof.
  assert (H : reduceJavaAgentYaml scenario = Ok (scenarioResult, None))
    by (vm_compute; reflexivity).
  split; [exact H|].
  destruct (query_group_names_are_union scenario scenarioResult None H
              "domain" "type=Thing,name=A") as [Hdom _].
  rewrite Hdom. vm_compute. reflexivity.
Defined.

(** C3, as amended: after a successful reduction a domain has a group
    exactly when some declaration with that domain has a metric group, and
    its event type is what the resolver returns for the application name
    and the template and query of the first such declaration; an event type
    present after a prefix of the declarations is the event type at the
    end. *)
Theorem event_type_from_first_contributor m st err :
  reduceJavaAgentYaml m = Ok (st, err) →
  (∀ d,
     match head (filter (contributes d) (JMX m)) with
     | None => model st !! d = None
     | Some decl =>
         ∃ q ev, queryOf decl = Some q ∧
                 getEventName (Name m) (RootMetricName decl) q = Ok ev ∧
                 eventType <$> model st !! d = Some ev
     end) ∧
  (∀ pre post st1 d ev,
     JMX m = pre ++ post →
     reduceFrom m pre (∅, emptyHeap) = Ok st1 →
     eventType <$> model st1 !! d = Some ev →
     eventType <$> model st !! d = Some ev).
Proof.
  intros [Hrun _]%reduceJavaAgentYaml_Ok. split.
  - intros d. exact (eventType_run m _ _ d Hrun).
  - intros pre post st1 d ev Hsplit Hpre Hev.
    rewrite Hsplit in Hrun. apply reduceFrom_app in Hrun as (st1' & Hpre' & Hpost).
    assert (st1' = st1) as -> by congruence.
    destruct (reduceFrom_spec _ _ _ _ wf_empty Hpre) as (Hwf1 & _).
    exact (eventTypeAt_kept _ _ _ _ _ _ Hwf1 Hpost Hev).
Qed.

Lemma event_type_from_first_contributor_witness :
  reduceJavaAgentYaml scenario = Ok (scenarioResult, None) ∧
  eventType <$> model scenarioResult !! "domain" = Some "MyApp_Thing_A".
Proof.
  assert (H : reduceJavaAgentYaml scenario = Ok (scenarioResult, None))
    by (vm_compute; reflexivity).
  split; [exact H|].
  destruct (event_type_from_first_contributor scenario scenarioResult None H) as [Hev _].
  specialize (Hev "domain").
  change (head (filter (contributes "domain") (JMX scenario)))
    with (head (JMX scenario)) in Hev.
  destruct Hev as (q & ev & Hq & Hget & Hev).
  injection Hq as <-. injection Hget as <-. exact Hev.
Defined.

(** C3, as stated, fails: the first declaration observed for domain "d"
    carries the template "First", for which the resolver returns
    "App_First", yet the event type stored for "d" is "App_Second". *)
Lemma event_type_not_from_first_declaration :
  reduceJavaAgentYaml silentFirst = Ok (silentFirstResult, None) ∧
  head (filter (fun decl => domainOf decl = "d") (JMX silentFirst))
  = Some {| ObjectName := "d:a=1"; RootMetricName := "First"; Metrics := [] |} ∧
  getEventName (Name silentFirst) "First" "a=1" = Ok "App_First" ∧
  eventType <$> model silentFirstResult !! "d" = Some "App_Second".
Proof. vm_compute. repeat split; reflexivity. Qed.

(** ** The emitter *)

Lemma visit_perm {V} backwards (l : list V) : visit backwards l ≡ₚ l.
Proof. destruct backwards; simpl; [apply reverse_Permutation|done]. Qed.

Lemma emitBean_builds backwards h kv o :
  emitBean backwards h kv = Some o → buildBean h kv o.
Proof.
  unfold emitBean. destruct (beanObjs h !! kv.2) as [bean|] eqn:Eb; simpl; [|done].
  intros [= <-]. exists bean. split; [done|]. split; [done|]. simpl.
  eexists. split; [|done]. apply visit_perm.
Qed.

Lemma emitDomain_builds backwards h kv o :
  emitDomain backwards h kv = Some o → buildDomain h kv o.
Proof.
  unfold emitDomain. destruct (domainObjs h !! kv.2) as [dobj|] eqn:Ed; simpl; [|done].
  destruct (mapM _ _) as [beans|] eqn:Em; simpl; [|done].
  intros [= <-]. exists dobj. split; [done|]. split; [done|]. split; [done|]. simpl.
  eexists. split; [apply visit_perm|].
  apply mapM_Some in Em. eapply Forall2_impl; [exact Em|].
  intros ??. apply emitBean_builds.
Qed.

Lemma emit_builds backwards dr domains :
  emit backwards dr = Some domains → buildCollectionDefinition dr domains.
Proof.
  unfold emit. intros Em%mapM_Some. eexists. split; [apply visit_perm|].
  eapply Forall2_impl; [exact Em|]. intros ??. apply emitDomain_builds.
Qed.

Lemma Forall2_perm_l {A B} (R : A → B → Prop) l1 l2 k1 :
  l1 ≡ₚ l2 → Forall2 R l1 k1 → ∃ k2, k1 ≡ₚ k2 ∧ Forall2 R l2 k2.
Proof.
  intros Hp. revert k1. induction Hp as [|x l1 l2 Hp IH|x y l|l1 l2 l3 _ IH1 _ IH2];
    intros k1 HF.
  - apply Forall2_nil_inv_l in HF as ->. by exists [].
  - apply Forall2_cons_inv_l in HF as (z & k & Hz & Hk & ->).
    destruct (IH _ Hk) as (k2 & Hk2 & HF2). exists (z :: k2).
    split; [by constructor|by constructor].
  - apply Forall2_cons_inv_l in HF as (z1 & k & Hz1 & Hk & ->).
    apply Forall2_cons_inv_l in Hk as (z2 & k' & Hz2 & Hk' & ->).
    exists (z2 :: z1 :: k'). split; [apply perm_swap|by repeat constructor].
  - destruct (IH1 _ HF) as (k2 & Hk2 & HF2).
    destruct (IH2 _ HF2) as (k3 & Hk3 & HF3).
    exists k3. split; [by etrans|done].
Qed.

Lemma Forall2_same_source {A B} (R : A → B → Prop) (E : B → B → Prop) l k1 k2 :
  (∀ a x y, R a x → R a y → E x y) →
  Forall2 R l k1 → Forall2 R l k2 → Forall2 E k1 k2.
Proof.
  intros HE HF1. revert k2. induction HF1 as [|a x l k1 Hx _ IH]; intros k2 HF2.
  - apply Forall2_nil_inv_l in HF2 as ->. constructor.
  - apply Forall2_cons_inv_l in HF2 as (y & k & Hy & Hk & ->).
    constructor; [by eapply HE|by apply IH].
Qed.

Lemma upToOrder_ranges {A B} (R : A → B → Prop) (E : B → B → Prop)
    (base l1 l2 : list A) k1 k2 :
  (∀ a x y, R a x → R a y → E x y) →
  l1 ≡ₚ base → l2 ≡ₚ base →
  Forall2 R l1 k1 → Forall2 R l2 k2 → upToOrder E k1 k2.
Proof.
  intros HE H1 H2 HF1 HF2.
  assert (Hp : l1 ≡ₚ l2) by (by rewrite H1, H2).
  destruct (Forall2_perm_l _ _ _ _ Hp HF1) as (k & Hk & HF).
  exists k. split; [done|]. by eapply Forall2_same_source.
Qed.

Lemma buildBean_same h kv x y : buildBean h kv x → buildBean h kv y → sameBean x y.
Proof.
  intros (b1 & Hb1 & Hq1 & kvs1 & Hr1 & Ha1) (b2 & Hb2 & Hq2 & kvs2 & Hr2 & Ha2).
  assert (b2 = b1) as -> by congruence.
  split; [congruence|]. rewrite Ha1, Ha2. unfold ranges in *. by rewrite Hr1, Hr2.
Qed.

Lemma buildDomain_same h kv x y :
  buildDomain h kv x → buildDomain h kv y → sameDomain x y.
Proof.
  intros (d1 & Hd1 & Hn1 & He1 & kvs1 & Hr1 & HF1)
         (d2 & Hd2 & Hn2 & He2 & kvs2 & Hr2 & HF2).
  assert (d2 = d1) as -> by congruence.
  split; [congruence|]. split; [congruence|].
  eapply upToOrder_ranges; [apply buildBean_same|exact Hr1|exact Hr2|done|done].
Qed.

(** C7, as amended: two runs of the emitter on the same reduction return
    the same domains, beans and attributes, up to the order of the list of
    domains, of each list of beans and of each list of attributes. *)
Theorem emission_unique_up_to_order dr o1 o2 :
  buildCollectionDefinition dr o1 → buildCollectionDefinition dr o2 →
  sameCollection o1 o2.
Proof.
  intros (kvs1 & Hr1 & HF1) (kvs2 & Hr2 & HF2).
  eapply upToOrder_ranges; [apply buildDomain_same|exact Hr1|exact Hr2|done|done].
Qed.

Lemma emission_unique_up_to_order_witness :
  buildCollectionDefinition scenarioResult scenarioForwards ∧
  buildCollectionDefinition scenarioResult scenarioBackwards ∧
  sameCollection scenarioForwards scenarioBackwards.
Proof.
  assert (H1 : buildCollectionDefinition scenarioResult scenarioForwards)
    by (apply (emit_builds false); vm_compute; reflexivity).
  assert (H2 : buildCollectionDefinition scenarioResult scenarioBackwards)
    by (apply (emit_builds true); vm_compute; reflexivity).
  split; [exact H1|]. split; [exact H2|].
  exact (emission_unique_up_to_order scenarioResult _ _ H1 H2).
Defined.

(** C7, as stated, fails: the reduction of the scenario has two possible
    outputs that differ, one listing attribute "count" before "errors" and
    one listing them the other way round. *)
Lemma emission_not_deterministic :
  reduceJavaAgentYaml scenario = Ok (scenarioResult, None) ∧
  buildCollectionDefinition scenarioResult scenarioForwards ∧
  buildCollectionDefinition scenarioResult scenarioBackwards ∧
  scenarioForwards ≠ scenarioBackwards.
Proof.
  split; [vm_compute; reflexivity|].
  split; [apply (emit_builds false); vm_compute; reflexivity|].
  split; [apply (emit_builds true); vm_compute; reflexivity|].
  vm_compute. discriminate.
Qed.

(** ** Splitting at a separator *)

Lemma cut_spec c s :
  occurs c s = true →
  s = takeUntil c s +:+ String c (afterFirst c s) ∧ occurs c (takeUntil c s) = false.
Proof.
  induction s as [|a s IH]; simpl; [done|].
  destruct (Ascii.eqb a c) eqn:Ea; simpl.
  - apply Ascii.eqb_eq in Ea as ->. done.
  - intros Hs. destruct (IH Hs) as [Heq Hno]. rewrite Ea. simpl. split; [|done].
    change (String a (takeUntil c s) +:+ String c (afterFirst c s))
      with (String a (takeUntil c s +:+ String c (afterFirst c s))).
    by rewrite <- Heq.
Qed.

Lemma takeUntil_none c s : occurs c s = false → takeUntil c s = s.
Proof.
  induction s as [|a s IH]; simpl; [done|].
  destruct (Ascii.eqb a c); simpl; [done|]. intros Hs. by rewrite IH.
Qed.

Lemma Split_none s c : occurs c s = false → Split s c = [s].
Proof.
  induction s as [|a s IH]; simpl; [done|].
  destruct (Ascii.eqb a c); simpl; [done|]. intros Hs. by rewrite IH.
Qed.

Lemma Split_cut s c :
  occurs c s = true → Split s c = takeUntil c s :: Split (afterFirst c s) c.
Proof.
  induction s as [|a s IH]; simpl; [done|].
  destruct (Ascii.eqb a c); simpl; [done|]. intros Hs. by rewrite IH.
Qed.

Lemma Split_first s c : Split s c !! 0 = Some (takeUntil c s).
Proof.
  destruct (occurs c s) eqn:Hs.
  - by rewrite Split_cut.
  - by rewrite Split_none, takeUntil_none.
Qed.

Lemma Split_second s c :
  occurs c s = true → Split s c !! 1 = Some (takeUntil c (afterFirst c s)).
Proof. intros Hs. rewrite Split_cut by done. simpl. apply Split_first. Qed.

Lemma Split_second_none s c : occurs c s = false → Split s c !! 1 = None.
Proof. intros Hs. by rewrite Split_none. Qed.

(** ** The metric kind *)



(** ** Patterns without a colon *)

Lemma domainOf_takeUntil decl : domainOf decl = takeUntil ":" (ObjectName decl).
Proof. unfold domainOf. by rewrite Split_first. Qed.

Lemma model_lookup_is_Some st d :
  is_Some (model st !! d) → ∃ l dobj, st.1 !! d = Some l ∧ domainObjs st.2 !! l = Some dobj.
Proof.
  unfold model. rewrite lookup_omap.
  destruct (st.1 !! d) as [l|]; simpl; [|by intros [? [=]]].
  unfold domainGroupOf. destruct (domainObjs st.2 !! l) as [dobj|] eqn:E; simpl.
  - intros _. by exists l, dobj.
  - by intros [? [=]].
Qed.

Lemma attrStep_no_query m decl dq mg fr a0 :
  thisBean fr = None → thisDomain fr = None → dq !! 1 = None →
  attrStep m decl dq mg fr a0
  = Panic (IndexOutOfRange "domainAndQuery" 1 (length dq)).
Proof.
  intros Hb Hd Hq.
  assert (Hi : index "domainAndQuery" dq 1
               = Panic (IndexOutOfRange "domainAndQuery" 1 (length dq)))
    by (unfold index; by rewrite Hq).
  unfold attrStep. rewrite Hb, Hd. cbv beta iota zeta. by rewrite Hi.
Qed.

Lemma metricStep_no_query m decl dq mg fr :
  thisBean fr = None → thisDomain fr = None → dq !! 1 = None →
  metricStep m decl dq fr mg
  = Panic (IndexOutOfRange "domainAndQuery" 1 (length dq)).
Proof.
  intros Hb Hd Hq. unfold metricStep.
  pose proof (Split_nonempty (Attributes mg) ",") as Hne.
  destruct (Split (Attributes mg) ",") as [|a0 pieces]; [done|].
  cbn [forRange]. by rewrite attrStep_no_query.
Qed.

Lemma declStep_no_colon m st decl :
  wf st → occurs ":" (ObjectName decl) = false →
  Metrics decl ≠ [] ∨ is_Some (model st !! domainOf decl) →
  declStep m st decl = Panic (IndexOutOfRange "domainAndQuery" 1 1).
Proof.
  intros Hwf Hno Hcase. destruct st as [tdm h]. unfold declStep.
  pose proof (domainOf_lookup decl) as Hdom.
  rewrite Split_none in * by done.
  unfold index at 1. simpl. simpl in Hdom. injection Hdom as Hdom.
  destruct (tdm !! ObjectName decl) as [d|] eqn:Ed.
  - destruct (wf_domain _ Hwf _ _ Ed) as [dobj Hdobj]. simpl in Hdobj.
    unfold deref. rewrite Hdobj. reflexivity.
  - destruct Hcase as [Hm|Hsome].
    + destruct (Metrics decl) as [|mg mgs]; [done|].
      cbn [mbind result_bind forRange]. by rewrite metricStep_no_query.
    + apply model_lookup_is_Some in Hsome as (l & dobj & Hl & _). simpl in Hl.
      rewrite <- Hdom in Hl. congruence.
Qed.

(** C8: a declaration whose pattern has no colon makes the reduction
    panic as soon as it has a metric group, whatever precedes it; and when
    the declarations before it reduce, it panics, if it has a metric group
    or its domain is already in the model, with the index fault of reading
    the second piece of the split pattern, which has one piece.  The
    reducer returns neither a model nor an error value. *)
Theorem pattern_without_colon_panics m decl :
  decl ∈ JMX m → occurs ":" (ObjectName decl) = false →
  (Metrics decl ≠ [] → ∃ p, reduceJavaAgentYaml m = Panic p) ∧
  (∀ pre post st,
     JMX m = pre ++ decl :: post →
     reduceFrom m pre (∅, emptyHeap) = Ok st →
     Metrics decl ≠ [] ∨ is_Some (model st !! domainOf decl) →
     declStep m st decl = Panic (IndexOutOfRange "domainAndQuery" 1 1) ∧
     reduceJavaAgentYaml m = Panic (IndexOutOfRange "domainAndQuery" 1 1)).
Proof.
  intros Hin Hno.
  assert (Hrun : ∀ pre post st,
     JMX m = pre ++ decl :: post →
     reduceFrom m pre (∅, emptyHeap) = Ok st →
     Metrics decl ≠ [] ∨ is_Some (model st !! domainOf decl) →
     declStep m st decl = Panic (IndexOutOfRange "domainAndQuery" 1 1) ∧
     reduceJavaAgentYaml m = Panic (IndexOutOfRange "domainAndQuery" 1 1)).
  { intros pre post st Hsplit Hpre Hcase.
    destruct (reduceFrom_spec _ _ _ _ wf_empty Hpre) as (Hwf & _).
    pose proof (declStep_no_colon m st decl Hwf Hno Hcase) as Hstep.
    split; [done|]. unfold reduceJavaAgentYaml, reduceFrom in *.
    rewrite Hsplit, forRange_app, Hpre. simpl. rewrite Hstep. reflexivity. }
  split; [|exact Hrun].
  intros Hm. apply list_elem_of_split in Hin as (pre & post & Hsplit).
  destruct (reduceFrom m pre (∅, emptyHeap)) as [st|p] eqn:Hpre.
  - destruct (Hrun pre post st Hsplit Hpre (or_introl Hm)) as [_ ->]. eauto.
  - exists p. unfold reduceJavaAgentYaml, reduceFrom in *.
    rewrite Hsplit, forRange_app, Hpre. reflexivity.
Qed.

Lemma pattern_without_colon_panics_witness :
  reduceJavaAgentYaml noColon = Panic (IndexOutOfRange "domainAndQuery" 1 1).
Proof.
  destruct (pattern_without_colon_panics noColon
              {| ObjectName := "java.lang"; RootMetricName := "";
                 Metrics := [ {| Attributes := "c"; Type_ := "simple" |} ] |})
    as [_ Hrun].
  - apply list_elem_of_here.
  - reflexivity.
  - destruct (Hrun [] [] (∅, emptyHeap)) as [_ Hp].
    + reflexivity.
    + reflexivity.
    + left. discriminate.
    + exact Hp.
Defined.

(** ** Placeholders *)

Lemma append_String a s t : String a s +:+ t = String a (s +:+ t).
Proof. reflexivity. Qed.

Lemma append_empty_l s : "" +:+ s = s.
Proof. reflexivity. Qed.

Lemma append_assoc s t u : (s +:+ t) +:+ u = s +:+ t +:+ u.
Proof. induction s as [|a s IH]; [done|]. rewrite !append_String. by rewrite IH. Qed.

Lemma append_empty_r s : s +:+ "" = s.
Proof. induction s as [|a s IH]; [done|]. rewrite append_String. by rewrite IH. Qed.

Lemma length_append s t : String.length (s +:+ t) = String.length s + String.length t.
Proof. induction s as [|a s IH]; [done|]. rewrite append_String. simpl. by rewrite IH. Qed.

Lemma wordRun_closed w post :
  allWord w = true → wordRun (w +:+ String "}" post) = w.
Proof.
  induction w as [|a w IH]; [done|]. rewrite append_String. simpl.
  intros [Ha Hw]%andb_prop. rewrite Ha. by rewrite IH.
Qed.

Lemma get_after w c post : String.get (String.length w) (w +:+ String c post) = Some c.
Proof. induction w as [|a w IH]; [done|]. rewrite append_String. simpl. apply IH. Qed.

Lemma matchHere_placeholder ph w post :
  placeholder ph w → matchHere (ph +:+ post) = Some ph.
Proof.
  intros (-> & Hne & Hw).
  change (("{" +:+ w +:+ "}") +:+ post) with (String "{" ((w +:+ "}") +:+ post)).
  rewrite append_assoc. change ("}" +:+ post) with (String "}" post).
  unfold matchHere. cbv beta iota zeta.
  rewrite (wordRun_closed _ _ Hw).
  destruct w as [|a w]; [done|]. by rewrite get_after.
Qed.

Lemma MatchString_cons a s :
  MatchString (String a s)
  = match matchHere (String a s) with
    | Some _ => true
    | None => MatchString s
    end.
Proof. reflexivity. Qed.

Lemma findAllFrom_cons skip a s :
  findAllFrom skip (String a s)
  = match skip with
    | S k => findAllFrom k s
    | O =>
        match matchHere (String a s) with
        | Some m => m :: findAllFrom (pred (String.length m)) s
        | None => findAllFrom 0 s
        end
    end.
Proof. reflexivity. Qed.

Lemma MatchString_here s ph : matchHere s = Some ph → MatchString s = true.
Proof.
  destruct s as [|a s]; [done|]. intros Hm. by rewrite MatchString_cons, Hm.
Qed.

Lemma MatchString_placeholder template :
  containsPlaceholder template → MatchString template = true.
Proof.
  intros (pre & ph & w & post & -> & Hph).
  induction pre as [|a pre IH].
  - rewrite append_empty_l. eapply MatchString_here. by eapply matchHere_placeholder.
  - rewrite append_String, MatchString_cons.
    destruct (matchHere (String a (pre +:+ ph +:+ post))); [done|]. exact IH.
Qed.

Lemma wordRun_afterRun s : s = wordRun s +:+ afterRun s.
Proof.
  induction s as [|c s IH]; [done|]. simpl. destruct (isWord c); [|done].
  rewrite append_String. by rewrite <- IH.
Qed.

Lemma wordRun_allWord s : allWord (wordRun s) = true.
Proof.
  induction s as [|c s IH]; [done|]. simpl. destruct (isWord c) eqn:Hc; [|done].
  simpl. by rewrite Hc.
Qed.

Lemma get_length_append w r : String.get (String.length w) (w +:+ r) = String.get 0 r.
Proof. induction w as [|a w IH]; [done|]. rewrite append_String. simpl. apply IH. Qed.

Lemma matchHere_Some s ph :
  matchHere s = Some ph →
  ∃ w post, placeholder ph w ∧ s = ph +:+ post.
Proof.
  unfold matchHere. destruct s as [|c s]; [done|].
  destruct (decide (c = "{"%char)) as [->|Hc].
  - pose proof (wordRun_afterRun s) as Hs.
    pose proof (wordRun_allWord s) as Hw.
    destruct (wordRun s) as [|a w] eqn:Ew; [done|].
    rewrite Hs at 1. rewrite get_length_append.
    destruct (afterRun s) as [|b post] eqn:Er; [done|]. simpl.
    destruct (decide (b = "}"%char)) as [->|Hb].
    + intros [= <-]. exists (String a w), post. split.
      * split; [done|]. split; [done|]. done.
      * change (("{" +:+ String a w +:+ "}") +:+ post)
          with (String "{" ((String a w +:+ "}") +:+ post)).
        rewrite append_assoc. f_equal. exact Hs.
    + intros Hm. exfalso. destruct b as [[] [] [] [] [] [] [] []]; try done.
  - intros Hm. exfalso. destruct c as [[] [] [] [] [] [] [] []]; try done.
Qed.

Lemma MatchString_contains template :
  MatchString template = true → containsPlaceholder template.
Proof.
  induction template as [|a s IH]; [done|]. rewrite MatchString_cons.
  destruct (matchHere (String a s)) as [ph|] eqn:Hm.
  - intros _. apply matchHere_Some in Hm as (w & post & Hph & Hs).
    exists "", ph, w, post. by rewrite append_empty_l.
  - intros (pre & ph & w & post & -> & Hph)%IH.
    exists (String a pre), ph, w, post. by rewrite append_String.
Qed.

Lemma findAllFrom_placeholders skip s :
  Forall (fun ph => ∃ w, placeholder ph w) (findAllFrom skip s).
Proof.
  revert skip. induction s as [|a s IH]; intros skip; [constructor|].
  rewrite findAllFrom_cons. destruct skip as [|k]; [|apply IH].
  destruct (matchHere (String a s)) as [ph|] eqn:Hm; [|apply IH].
  constructor; [|apply IH].
  apply matchHere_Some in Hm as (w & post & Hph & _). eauto.
Qed.

Lemma findAllFrom_no_match skip s : MatchString s = false → findAllFrom skip s = [].
Proof.
  revert skip. induction s as [|a s IH]; intros skip; [done|].
  rewrite MatchString_cons, findAllFrom_cons.
  destruct (matchHere (String a s)); [done|]. intros Hs.
  destruct skip; by apply IH.
Qed.

(** ** Query pieces without an equals sign *)

Lemma queryMapStep_Ok queryMap thisQuery :
  occurs "=" thisQuery = true →
  queryMapStep queryMap thisQuery
  = Ok (<[takeUntil "=" thisQuery := takeUntil "=" (afterFirst "=" thisQuery)]> queryMap).
Proof.
  intros Hs. unfold queryMapStep, index.
  by rewrite Split_first, Split_second.
Qed.

Lemma queryMapStep_Panic queryMap thisQuery :
  occurs "=" thisQuery = false →
  queryMapStep queryMap thisQuery = Panic (IndexOutOfRange "querySplit" 1 1).
Proof.
  intros Hs. unfold queryMapStep, index.
  by rewrite Split_first, Split_second_none, Split_none.
Qed.

Lemma queryMap_Panic queryStrings queryMap :
  (∃ seg, seg ∈ queryStrings ∧ occurs "=" seg = false) →
  forRange queryMapStep queryStrings queryMap
  = Panic (IndexOutOfRange "querySplit" 1 1).
Proof.
  revert queryMap. induction queryStrings as [|seg0 segs IH]; intros queryMap.
  - by intros (seg & ?%elem_of_nil & _).
  - intros (seg & Hin & Hno). cbn [forRange].
    destruct (occurs "=" seg0) eqn:H0.
    + rewrite queryMapStep_Ok by done. cbn [mbind result_bind]. apply IH.
      apply elem_of_cons in Hin as [->|Hin]; [congruence|eauto].
    + by rewrite queryMapStep_Panic.
Qed.

(** C9: when the template is not empty and has a placeholder, and some
    comma-separated piece of the query has no equals sign, the resolver
    panics with the index fault of reading the second piece of a pair split
    that has one piece: it returns no string and does not skip the pair. *)
Theorem resolver_panics_without_equals oldName rootMetricName query :
  rootMetricName ≠ "" → containsPlaceholder rootMetricName →
  (∃ seg, seg ∈ Split query "," ∧ occurs "=" seg = false) →
  getEventName oldName rootMetricName query
  = Panic (IndexOutOfRange "querySplit" 1 1).
Proof.
  intros Hne Hph Hseg. unfold getEventName.
  rewrite decide_False by done.
  rewrite (MatchString_placeholder _ Hph).
  by rewrite (queryMap_Panic _ _ Hseg).
Qed.

Lemma resolver_panics_without_equals_witness :
  getEventName "MyApp" "Pool_{name}" "name=Foo,oops"
  = Panic (IndexOutOfRange "querySplit" 1 1).
Proof.
  apply resolver_panics_without_equals.
  - discriminate.
  - exists "Pool_", "{name}", "name", "". split; [reflexivity|].
    split; [reflexivity|]. split; [discriminate|reflexivity].
  - exists "oops". split; [|reflexivity].
    apply list_elem_of_further, list_elem_of_here.
Defined.

(** ** The simple parse *)

Lemma parseAttr_run mg pieces acc :
  foldl (parseAttr mg) acc pieces
  = acc ++ (attributeOutputOf
              <$> ((fun a => (a, newAttribute mg a)) <$> (TrimSpace <$> pieces))).
Proof.
  revert acc. induction pieces as [|a0 pieces IH]; intros acc.
  - simpl. by rewrite app_nil_r.
  - cbn [foldl]. rewrite IH. unfold parseAttr. rewrite <- (assoc_L (++)). done.
Qed.

Lemma parseMetric_step dq q mg acc :
  dq !! 1 = Some q →
  parseMetric dq acc mg
  = Ok (acc ++ [ {| Out.Query := q;
                    Out.Attributes := attributeOutputOf <$> entriesOf mg |} ]).
Proof.
  intros Hq. unfold parseMetric, index. rewrite Hq, parseAttr_run. reflexivity.
Qed.

Lemma parseMetric_run dq q mgs acc :
  dq !! 1 = Some q →
  forRange (parseMetric dq) mgs acc
  = Ok (acc ++ ((fun mg => {| Out.Query := q;
                              Out.Attributes := attributeOutputOf <$> entriesOf mg |})
                  <$> mgs)).
Proof.
  intros Hq. revert acc. induction mgs as [|mg mgs IH]; intros acc.
  - simpl. by rewrite app_nil_r.
  - rewrite forRange_cons, (parseMetric_step _ _ _ _ Hq). cbn [mbind result_bind].
    rewrite IH, <- (assoc_L (++)). done.
Qed.

Lemma parseDecl_colon m decl :
  occurs ":" (ObjectName decl) = true →
  parseDecl m decl
  = (ev ← getEventName (Name m) (RootMetricName decl)
            (takeUntil ":" (afterFirst ":" (ObjectName decl)));
     Ok {| Out.Domain := takeUntil ":" (ObjectName decl);
           Out.EventType := ev;
           Out.Beans :=
             (fun mg => {| Out.Query := takeUntil ":" (afterFirst ":" (ObjectName decl));
                           Out.Attributes := attributeOutputOf <$> entriesOf mg |})
               <$> Metrics decl |}).
Proof.
  intros Hcolon. unfold parseDecl.
  rewrite (parseMetric_run _ _ _ _ (Split_second _ _ Hcolon)).
  cbn [mbind result_bind]. unfold index.
  rewrite (Split_second _ _ Hcolon), Split_first. cbn [mbind result_bind].
  by destruct (getEventName _ _ _).
Qed.

(** ** Empty attribute segments *)

Lemma Split_append s1 s2 c :
  Split (s1 +:+ String c s2) c = Split s1 c ++ Split s2 c.
Proof.
  induction s1 as [|a s1 IH]; simpl.
  - change ("" +:+ String c s2) with (String c s2). simpl.
    by rewrite Ascii.eqb_refl.
  - change (String a s1 +:+ String c s2) with (String a (s1 +:+ String c s2)).
    simpl. rewrite IH. destruct (Ascii.eqb a c); [done|].
    pose proof (Split_nonempty s1 c) as Hne.
    by destruct (Split s1 c).
Qed.

Lemma hasEmptySegment_Split attrs :
  hasEmptySegment attrs → "" ∈ Split attrs ",".
Proof.
  intros [->|[(s1 & s2 & ->)|(s1 & ->)]].
  - apply list_elem_of_here.
  - change (s1 +:+ ",," +:+ s2) with (s1 +:+ String "," (String "," s2)).
    rewrite Split_append. apply elem_of_app. right. simpl. apply list_elem_of_here.
  - change (s1 +:+ ",") with (s1 +:+ String "," "").
    rewrite Split_append. apply elem_of_app. right. apply list_elem_of_here.
Qed.

Lemma builds_has_attribute dr out d q a e :
  buildCollectionDefinition dr out →
  attributeEntry (model dr) d q a = Some e →
  ∃ dout bout aout,
    dout ∈ out ∧ Out.Domain dout = d ∧
    bout ∈ Out.Beans dout ∧ Out.Query bout = q ∧
    aout ∈ Out.Attributes bout ∧ aout = attributeOutputOf (a, e).
Proof.
  intros (kvs & Hr & HF) He.
  unfold attributeEntry in He. rewrite queryGroup_heap in He.
  destruct (beanAt dr d q) as [b|] eqn:Eb; simpl in He; [|done].
  destruct (beanObjs dr.2 !! b) as [bean|] eqn:Ebean; simpl in He; [|done].
  apply beanAt_Some in Eb as (l & dobj & Hl & Hdobj & Hb).
  assert (Hin : (d, l) ∈ kvs).
  { unfold ranges in Hr. rewrite Hr. by apply elem_of_map_to_list. }
  apply list_elem_of_lookup in Hin as (i & Hi).
  destruct (Forall2_lookup_l _ _ _ _ _ HF Hi) as (dout & Hdout & Hbd).
  destruct Hbd as (dobj' & Hdobj' & Hdom & _ & kvs' & Hr' & HF'). simpl in *.
  assert (dobj' = dobj) as -> by congruence.
  assert (Hin' : (q, b) ∈ kvs').
  { unfold ranges in Hr'. rewrite Hr'. by apply elem_of_map_to_list. }
  apply list_elem_of_lookup in Hin' as (j & Hj).
  destruct (Forall2_lookup_l _ _ _ _ _ HF' Hj) as (bout & Hbout & Hbb).
  destruct Hbb as (bean' & Hbean' & Hq & kvs'' & Hr'' & Hattrs). simpl in *.
  assert (bean' = bean) as -> by congruence.
  exists dout, bout, (attributeOutputOf (a, e)).
  split; [by eapply list_elem_of_lookup_2|]. split; [done|].
  split; [by eapply list_elem_of_lookup_2|]. split; [done|]. split; [|done].
  rewrite Hattrs. apply list_elem_of_fmap_2.
  unfold ranges in Hr''. rewrite Hr''. by apply elem_of_map_to_list.
Qed.

(** On the heap the reducer maintains, the emitter returns. *)
Lemma emit_total backwards dr : wf dr → is_Some (emit backwards dr).
Proof.
  intros Hwf. unfold emit. apply mapM_is_Some. apply Forall_forall.
  intros [d l] Hin. rewrite visit_perm in Hin. apply elem_of_map_to_list in Hin.
  destruct (wf_domain _ Hwf _ _ Hin) as [dobj Hdobj].
  unfold emitDomain. simpl. rewrite Hdobj. simpl.
  assert (Hbeans : is_Some (mapM (emitBean backwards dr.2)
                              (visit backwards (map_to_list (BeansMap dobj))))).
  { apply mapM_is_Some. apply Forall_forall.
    intros [q b] Hin'. rewrite visit_perm in Hin'. apply elem_of_map_to_list in Hin'.
    destruct (wf_bean _ Hwf _ _ _ _ Hdobj Hin') as [bean Hbean].
    unfold emitBean. simpl. rewrite Hbean. by eexists. }
  destruct Hbeans as [beans ->]. by eexists.
Qed.

Lemma queryOf_Some_colon decl q :
  queryOf decl = Some q → occurs ":" (ObjectName decl) = true.
Proof.
  unfold queryOf. destruct (occurs ":" (ObjectName decl)) eqn:Hc; [done|].
  by rewrite Split_second_none.
Qed.

Lemma TrimSpace_empty : TrimSpace "" = "".
Proof. reflexivity. Qed.

(** C10: in a successful reduction, a metric group whose attribute string
    is empty, has two commas in a row or ends with a comma has the empty
    string among its trimmed attribute names; the query group of its
    declaration then holds an entry keyed by the empty string, whose metric
    name is empty, and every output of the emitter (there is one) lists for
    that domain and query an attribute whose name and metric name are
    empty; so does what the simple parse returns for the declaration. *)
Theorem empty_segment_becomes_attribute m st err decl mg :
  reduceJavaAgentYaml m = Ok (st, err) →
  decl ∈ JMX m → mg ∈ Metrics decl → hasEmptySegment (Attributes mg) →
  "" ∈ Split (Attributes mg) "," ∧ "" ∈ attrNames mg ∧
  ∃ q e,
    queryOf decl = Some q ∧
    attributeEntry (model st) (domainOf decl) q "" = Some e ∧
    MetricName e = "" ∧
    (∃ out, buildCollectionDefinition st out) ∧
    (∀ out, buildCollectionDefinition st out →
       ∃ dout bout aout,
         dout ∈ out ∧ Out.Domain dout = domainOf decl ∧
         bout ∈ Out.Beans dout ∧ Out.Query bout = q ∧
         aout ∈ Out.Attributes bout ∧
         Out.Attr aout = "" ∧ Out.MetricName aout = "") ∧
    (∀ dout, parseDecl m decl = Ok dout →
       ∃ bout aout,
         bout ∈ Out.Beans dout ∧ Out.Query bout = q ∧
         aout ∈ Out.Attributes bout ∧
         Out.Attr aout = "" ∧ Out.MetricName aout = "").
Proof.
  intros [Hrun _]%reduceJavaAgentYaml_Ok Hdecl Hmg Hempty.
  pose proof (hasEmptySegment_Split _ Hempty) as Hsplit.
  assert (Hname : "" ∈ attrNames mg).
  { unfold attrNames. rewrite <- TrimSpace_empty at 1. by apply list_elem_of_fmap_2. }
  split; [done|]. split; [done|].
  destruct (reduceFrom_spec _ _ _ _ wf_empty Hrun) as (Hwf & _ & _ & Hall).
  assert (Hm : Metrics decl ≠ []) by (intros Hnil; rewrite Hnil in Hmg; by apply elem_of_nil in Hmg).
  destruct (Hall decl Hdecl Hm) as [q Hq].
  pose proof (attributeEntry_run m _ _ (domainOf decl) q "" Hrun) as He.
  assert (Hin : mg ∈ filter (fun mg => "" ∈ attrNames mg) (groupsFor (domainOf decl) q (JMX m))).
  { apply list_elem_of_filter. split; [done|]. unfold groupsFor.
    apply list_elem_of_bind. exists decl. split; [done|].
    apply list_elem_of_filter. by split. }
  destruct (filter _ (groupsFor (domainOf decl) q (JMX m))) as [|mg' G] eqn:EG;
    [by apply elem_of_nil in Hin|].
  simpl in He. exists q, (newAttribute mg' "").
  split; [done|]. split; [done|]. split; [done|]. split; [|split].
  - destruct (emit_total false st Hwf) as [out Hout]. exists out. by eapply emit_builds.
  - intros out Hout.
    destruct (builds_has_attribute _ _ _ _ _ _ Hout He)
      as (dout & bout & aout & ? & ? & ? & ? & ? & ->).
    exists dout, bout, (attributeOutputOf ("", newAttribute mg' "")). done.
  - intros dout. rewrite (parseDecl_colon _ _ (queryOf_Some_colon _ _ Hq)).
    assert (q = takeUntil ":" (afterFirst ":" (ObjectName decl))) as <-.
    { unfold queryOf in Hq. rewrite (Split_second _ _ (queryOf_Some_colon _ _ Hq)) in Hq.
      congruence. }
    destruct (getEventName _ _ _) as [ev|]; cbn [mbind result_bind]; [|done].
    intros [= <-]. simpl.
    exists {| Out.Query := q; Out.Attributes := attributeOutputOf <$> entriesOf mg |},
           (attributeOutputOf ("", newAttribute mg "")).
    split; [|split; [done|]].
    { apply list_elem_of_fmap. by exists mg. }
    split; [|done]. simpl. apply list_elem_of_fmap_2. unfold entriesOf.
    by apply (list_elem_of_fmap_2 (fun a => (a, newAttribute mg a))).
Qed.

Lemma empty_segment_becomes_attribute_witness :
  reduceJavaAgentYaml trailingComma = Ok (trailingCommaResult, None) ∧
  attributeEntry (model trailingCommaResult) "d" "a=1" ""
  = Some {| MetricType := "gauge"; MetricName := "" |}.
Proof.
  assert (H : reduceJavaAgentYaml trailingComma = Ok (trailingCommaResult, None))
    by (vm_compute; reflexivity).
  split; [exact H|].
  destruct (empty_segment_becomes_attribute trailingComma trailingCommaResult None
              {| ObjectName := "d:a=1"; RootMetricName := "";
                 Metrics := [ {| Attributes := "c,"; Type_ := "simple" |} ] |}
              {| Attributes := "c,"; Type_ := "simple" |} H)
    as (_ & _ & q & e & Hq & He & _).
  - apply list_elem_of_here.
  - apply list_elem_of_here.
  - right. right. by exists "c".
  - injection Hq as <-. pose proof He as He'. vm_compute in He'.
    injection He' as <-. exact He.
Defined.

(** ** The pieces of a pattern *)

(** C4, as amended: for a declaration of a successful reduction whose
    pattern has a colon, the domain is the text before the first colon and
    the query is the text between the first colon and the next one, which
    is all the remaining text when there is no further colon; that query
    is the key of the declaration's query group and what the resolver is
    given, in the reducing parse and in the simple parse alike. *)
Theorem pattern_split_on_colons m st err decl :
  reduceJavaAgentYaml m = Ok (st, err) → decl ∈ JMX m →
  occurs ":" (ObjectName decl) = true →
  let name := ObjectName decl in
  let rest := afterFirst ":" name in
  name = takeUntil ":" name +:+ String ":" rest ∧
  occurs ":" (takeUntil ":" name) = false ∧
  domainOf decl = takeUntil ":" name ∧
  queryOf decl = Some (takeUntil ":" rest) ∧
  (occurs ":" rest = false → queryOf decl = Some rest) ∧
  (Metrics decl ≠ [] →
   is_Some (queryGroup (model st) (domainOf decl) (takeUntil ":" rest))) ∧
  (head (filter (contributes (domainOf decl)) (JMX m)) = Some decl →
   ∃ ev, getEventName (Name m) (RootMetricName decl) (takeUntil ":" rest) = Ok ev ∧
         eventType <$> model st !! domainOf decl = Some ev) ∧
  parseDecl m decl
  = (ev ← getEventName (Name m) (RootMetricName decl) (takeUntil ":" rest);
     Ok {| Out.Domain := takeUntil ":" name;
           Out.EventType := ev;
           Out.Beans :=
             (fun mg => {| Out.Query := takeUntil ":" rest;
                           Out.Attributes := attributeOutputOf <$> entriesOf mg |})
               <$> Metrics decl |}).
Proof.
  intros [Hrun _]%reduceJavaAgentYaml_Ok Hin Hcolon name rest.
  destruct (cut_spec _ _ Hcolon) as [Hname Hdom].
  assert (Hq : queryOf decl = Some (takeUntil ":" rest))
    by (unfold queryOf; by rewrite Split_second).
  split; [done|]. split; [done|]. split; [apply domainOf_takeUntil|].
  split; [done|]. split; [|split; [|split]].
  - intros Hrest. by rewrite Hq, takeUntil_none.
  - intros Hm.
    destruct (queryGroup_run m _ _ (domainOf decl) (takeUntil ":" rest) Hrun)
      as [_ Hsome].
    apply Hsome. destruct (Metrics decl) as [|mg mgs] eqn:Em; [done|].
    assert (Hmg : mg ∈ groupsFor (domainOf decl) (takeUntil ":" rest) (JMX m)).
    { unfold groupsFor. apply list_elem_of_bind. exists decl.
      split; [rewrite Em; apply list_elem_of_here|].
      apply list_elem_of_filter. by split. }
    intros Hnil. rewrite Hnil in Hmg. by apply elem_of_nil in Hmg.
  - intros Hhead.
    pose proof (eventType_run m _ _ (domainOf decl) Hrun) as Hev.
    rewrite Hhead in Hev.
    destruct Hev as (q & ev & Hq' & Hget & Hev).
    assert (q = takeUntil ":" rest) as -> by congruence. eauto.
  - by apply parseDecl_colon.
Qed.

Lemma pattern_split_on_colons_witness :
  reduceJavaAgentYaml twoColons = Ok (twoColonsResult, None) ∧
  queryOf {| ObjectName := "d:a=1:b=2"; RootMetricName := "";
             Metrics := [ {| Attributes := "c"; Type_ := "simple" |} ] |}
  = Some "a=1".
Proof.
  assert (H : reduceJavaAgentYaml twoColons = Ok (twoColonsResult, None))
    by (vm_compute; reflexivity).
  split; [exact H|].
  destruct (pattern_split_on_colons twoColons twoColonsResult None
              {| ObjectName := "d:a=1:b=2"; RootMetricName := "";
                 Metrics := [ {| Attributes := "c"; Type_ := "simple" |} ] |} H)
    as (_ & _ & _ & Hq & _).
  - apply list_elem_of_here.
  - reflexivity.
  - exact Hq.
Defined.

(** C4, as stated, fails: for the pattern "d:a=1:b=2" the text after the
    first colon is "a=1:b=2", but the query the reducer reads, groups by
    and hands to the resolver is "a=1"; no group is keyed by the whole
    remaining text. *)
Lemma query_is_not_all_after_first_colon :
  reduceJavaAgentYaml twoColons = Ok (twoColonsResult, None) ∧
  afterFirst ":" "d:a=1:b=2" = "a=1:b=2" ∧
  queryOf {| ObjectName := "d:a=1:b=2"; RootMetricName := "";
             Metrics := [ {| Attributes := "c"; Type_ := "simple" |} ] |}
  = Some "a=1" ∧
  queryGroup (model twoColonsResult) "d" "a=1:b=2" = None ∧
  is_Some (queryGroup (model twoColonsResult) "d" "a=1").
Proof.
  split; [vm_compute; reflexivity|]. split; [reflexivity|].
  split; [reflexivity|]. split; [vm_compute; reflexivity|].
  vm_compute. eexists. reflexivity.
Qed.

(** ** The resolver *)

Lemma substring_prefix w r : String.substring 0 (String.length w) (w +:+ r) = w.
Proof.
  induction w as [|a w IH].
  - rewrite append_empty_l. by destruct r.
  - rewrite append_String. simpl. by rewrite IH.
Qed.

Lemma identifierOf_placeholder ph w : placeholder ph w → identifierOf ph = w.
Proof.
  intros (-> & _ & _). unfold identifierOf.
  change ("{" +:+ w +:+ "}") with (String "{" (w +:+ "}")).
  simpl String.length. rewrite length_append. simpl String.length.
  replace (S (String.length w + 1) - 2) with (String.length w) by lia.
  simpl. apply substring_prefix.
Qed.

Lemma substituteStep_placeholder qm t ph w :
  placeholder ph w →
  substituteStep qm t ph
  = Ok (match qm !! identifierOf ph with
        | Some v => Replace t ph v
        | None => t
        end).
Proof.
  intros Hph. pose proof (identifierOf_placeholder _ _ Hph) as Hid.
  unfold substituteStep, slice.
  assert (Hlen : 2 ≤ String.length ph).
  { destruct Hph as (-> & _ & _).
    change ("{" +:+ w +:+ "}") with (String "{" (w +:+ "}")).
    simpl. rewrite length_append. simpl. lia. }
  rewrite decide_True by lia.
  replace (String.length ph - 1 - 1) with (String.length ph - 2) by lia.
  fold (identifierOf ph). cbn [mbind result_bind].
  by destruct (qm !! identifierOf ph).
Qed.

Lemma substitute_run qm phs t :
  Forall (fun ph => ∃ w, placeholder ph w) phs →
  forRange (substituteStep qm) phs t
  = Ok (foldl (fun t ph =>
                 match qm !! identifierOf ph with
                 | Some v => Replace t ph v
                 | None => t
                 end) t phs).
Proof.
  intros Hall. revert t. induction Hall as [|ph phs [w Hph] _ IH]; intros t; [done|].
  cbn [forRange foldl]. rewrite (substituteStep_placeholder _ _ _ _ Hph).
  cbn [mbind result_bind]. apply IH.
Qed.

Lemma queryMap_run segs qm :
  (∀ seg, seg ∈ segs → occurs "=" seg = true) →
  forRange queryMapStep segs qm
  = Ok (foldl (fun qm seg =>
                 <[takeUntil "=" seg := takeUntil "=" (afterFirst "=" seg)]> qm)
              qm segs).
Proof.
  revert qm. induction segs as [|seg segs IH]; intros qm Hall; [done|].
  cbn [forRange foldl]. rewrite queryMapStep_Ok by (apply Hall, list_elem_of_here).
  cbn [mbind result_bind]. apply IH. intros seg' Hin. by apply Hall, list_elem_of_further.
Qed.

(** C5, as amended: for a non-empty template, when every comma-separated
    piece of the query has an equals sign (or the template has no
    placeholder, in which case the query is not read), the resolver returns
    the sanitized concatenation of the application name (the default
    identifier when it is empty), an underscore and the template after
    substitution, where the value bound to a key is the text between the
    first and the next equals sign of its pair; the placeholders are the
    braced runs of word bytes, and a template none of whose identifiers is
    a key is left as it is. *)
Theorem resolver_substitutes appName template query :
  template ≠ "" →
  (containsPlaceholder template →
   ∀ seg, seg ∈ Split query "," → occurs "=" seg = true) →
  getEventName appName template query
  = Ok (makeInsightsCompliantEventType
          ((if decide (appName = "") then "JMXSample" else appName)
           +:+ "_" +:+ substitute (pairMap query) template)) ∧
  Forall (fun ph => ∃ w, placeholder ph w ∧ identifierOf ph = w)
         (FindAllString template) ∧
  ((∀ ph, ph ∈ FindAllString template → pairMap query !! identifierOf ph = None) →
   substitute (pairMap query) template = template).
Proof.
  intros Hne Hpairs. split; [|split].
  - unfold getEventName. rewrite decide_False by done.
    destruct (MatchString template) eqn:Hm.
    + rewrite queryMap_run by (apply Hpairs; by apply MatchString_contains).
      cbn [mbind result_bind].
      rewrite substitute_run by apply findAllFrom_placeholders.
      reflexivity.
    + unfold substitute, FindAllString. rewrite findAllFrom_no_match by done.
      reflexivity.
  - eapply Forall_impl; [apply findAllFrom_placeholders|].
    intros ph [w Hph]. exists w. split; [done|]. by apply identifierOf_placeholder.
  - intros Hnone. unfold substitute.
    induction (FindAllString template) as [|ph phs IH] in Hnone |- * using rev_ind; [done|].
    rewrite foldl_app. simpl. rewrite Hnone by (apply elem_of_app; right; apply list_elem_of_here).
    apply IH. intros ph' Hin. apply Hnone, elem_of_app. by left.
Qed.

Lemma resolver_substitutes_witness :
  getEventName "MyApp" "Pool_{name}" "name=Foo,type=Bar" = Ok "MyApp_Pool_Foo".
Proof.
  destruct (resolver_substitutes "MyApp" "Pool_{name}" "name=Foo,type=Bar") as [H _].
  - discriminate.
  - intros _ seg Hin.
    repeat (apply elem_of_cons in Hin as [->|Hin]; [reflexivity|]).
    by apply elem_of_nil in Hin.
  - rewrite H. vm_compute. reflexivity.
Defined.

(** C5, as stated, fails: with the query "name=a=b" the text after the
    first equals sign of the pair is "a=b", which the resolver as worded
    substitutes, while the code substitutes "a". *)
Lemma value_is_not_all_after_first_equals :
  statedResolve "MyApp" "Pool_{name}" "name=a=b" = "MyApp_Pool_a=b" ∧
  getEventName "MyApp" "Pool_{name}" "name=a=b" = Ok "MyApp_Pool_a".
Proof. split; vm_compute; reflexivity. Qed.

(** The examples of the specification. *)
Example getEventName_missing :
  getEventName "MyApp" "Pool_{missing}" "name=Foo" = Ok "MyApp_Pool_{missing}".
Proof. vm_compute. reflexivity. Qed.

Example getEventName_default :
  getEventName "" "" "name=Foo" = Ok "JMXSample".
Proof. vm_compute. reflexivity. Qed.

Example sanitize_example :
  makeInsightsCompliantEventType "My App/Name Test" = "My_App:Name_Test".
Proof. vm_compute. reflexivity. Qed.

Example TrimSpace_example :
  TrimSpace (bytes [32; 9; 226; 128; 131] +:+ "a b" +:+ bytes [194; 160; 10]) = "a b".
Proof. vm_compute. reflexivity. Qed.

(** ** The sanitiser *)

Lemma Replace_byte s c d :
  Replace s (String c "") (String d "")
  = mapBytes (fun a => if Ascii.eqb a c then d else a) s.
Proof.
  unfold Replace. induction s as [|a s IH]; [done|].
  cbn [replaceFrom mapBytes String.prefix String.length pred].
  destruct (ascii_dec c a) as [<-|Hne].
  - rewrite Ascii.eqb_refl. destruct s; by rewrite IH.
  - destruct (Ascii.eqb_spec a c) as [->|_]; [done|]. by rewrite IH.
Qed.

Lemma mapBytes_compose f g s : mapBytes g (mapBytes f s) = mapBytes (fun a => g (f a)) s.
Proof. induction s as [|a s IH]; [done|]. cbn. by rewrite IH. Qed.

Lemma mapBytes_ext f g s : (∀ a, f a = g a) → mapBytes f s = mapBytes g s.
Proof. intros E. induction s as [|a s IH]; [done|]. cbn. by rewrite E, IH. Qed.

Lemma sanitize_bytes s : makeInsightsCompliantEventType s = mapBytes compliantByte s.
Proof.
  unfold makeInsightsCompliantEventType. cbv zeta.
  rewrite !Replace_byte, mapBytes_compose. apply mapBytes_ext. intros a.
  unfold compliantByte. destruct (Ascii.eqb_spec a " ") as [->|]; [done|].
  done.
Qed.

Lemma mapBytes_length f s : String.length (mapBytes f s) = String.length s.
Proof. induction s as [|a s IH]; [done|]. cbn. by rewrite IH. Qed.

Lemma mapBytes_get f s i : String.get i (mapBytes f s) = f <$> String.get i s.
Proof.
  revert i. induction s as [|a s IH]; intros i; [done|].
  destruct i; cbn; [done|]. apply IH.
Qed.

Lemma occurs_mapBytes c f s :
  (∀ a, Ascii.eqb (f a) c = false) → occurs c (mapBytes f s) = false.
Proof. intros E. induction s as [|a s IH]; [done|]. cbn. by rewrite E, IH. Qed.

Lemma compliantByte_not_space a : Ascii.eqb (compliantByte a) " " = false.
Proof.
  unfold compliantByte. destruct (Ascii.eqb_spec a " ") as [->|]; [done|].
  destruct (Ascii.eqb_spec a "/") as [->|]; [done|].
  by apply Ascii.eqb_neq.
Qed.

Lemma compliantByte_not_slash a : Ascii.eqb (compliantByte a) "/" = false.
Proof.
  unfold compliantByte. destruct (Ascii.eqb_spec a " ") as [->|]; [done|].
  destruct (Ascii.eqb_spec a "/") as [->|]; [done|].
  by apply Ascii.eqb_neq.
Qed.

Lemma mapBytes_id f s :
  (∀ a, occurs a s = true → f a = a) → mapBytes f s = s.
Proof.
  induction s as [|a s IH]; intros E; [done|]. cbn.
  rewrite E by (cbn; by rewrite Ascii.eqb_refl).
  rewrite IH; [done|]. intros b Hb. apply E. cbn. rewrite Hb. apply orb_true_r.
Qed.

(** X1: [makeInsightsCompliantEventType] works byte by byte: its result
    has the length of its argument, and its byte at each position is the
    one of the argument with a space turned into an underscore and a slash
    into a colon. *)
Theorem sanitize_bytewise s :
  String.length (makeInsightsCompliantEventType s) = String.length s ∧
  ∀ i, String.get i (makeInsightsCompliantEventType s)
       = compliantByte <$> String.get i s.
Proof.
  rewrite sanitize_bytes. split; [apply mapBytes_length|].
  intros i. apply mapBytes_get.
Qed.

(** X2: the result of [makeInsightsCompliantEventType] has no space and
    no slash; sanitising it again changes nothing; and the strings the
    function leaves as they are are those without space and slash. *)
Theorem sanitize_clean_idempotent s :
  occurs " " (makeInsightsCompliantEventType s) = false ∧
  occurs "/" (makeInsightsCompliantEventType s) = false ∧
  makeInsightsCompliantEventType (makeInsightsCompliantEventType s)
  = makeInsightsCompliantEventType s ∧
  (makeInsightsCompliantEventType s = s
   ↔ occurs " " s = false ∧ occurs "/" s = false).
Proof.
  assert (Hclean : ∀ t, occurs " " (makeInsightsCompliantEventType t) = false ∧
                        occurs "/" (makeInsightsCompliantEventType t) = false).
  { intros t. rewrite sanitize_bytes. split; apply occurs_mapBytes.
    - apply compliantByte_not_space.
    - apply compliantByte_not_slash. }
  assert (Hfix : ∀ t, occurs " " t = false → occurs "/" t = false →
                      makeInsightsCompliantEventType t = t).
  { intros t H1 H2. rewrite sanitize_bytes. apply mapBytes_id. intros a Ha.
    unfold compliantByte.
    destruct (Ascii.eqb_spec a " ") as [->|]; [congruence|].
    destruct (Ascii.eqb_spec a "/") as [->|]; [congruence|]. done. }
  destruct (Hclean s) as [H1 H2].
  split; [done|]. split; [done|]. split; [by apply Hfix|].
  split; [by intros <-|]. intros [? ?]. by apply Hfix.
Qed.

(** ** The outcomes of the resolver *)

Lemma getEventName_Ok_shape oldName t q ev :
  getEventName oldName t q = Ok ev →
  ∃ base rest, base ≠ "" ∧ ev = makeInsightsCompliantEventType (base +:+ rest).
Proof.
  unfold getEventName. cbv zeta.
  set (base := if decide (oldName = "") then defaultEventType else oldName).
  assert (Hb : base ≠ "").
  { subst base. unfold defaultEventType. by destruct (decide (oldName = "")). }
  intros H.
  case_decide as Ht.
  - injection H as <-. exists base, "". by rewrite append_empty_r.
  - apply result_bind_Ok in H as (r & _ & H). injection H as <-.
    by exists base, (sep +:+ r).
Qed.

(** X3: an event name [getEventName] returns is never empty and has
    neither a space nor a slash, whatever the name, the template and the
    query. *)
Theorem getEventName_compliant oldName rootMetricName query ev :
  getEventName oldName rootMetricName query = Ok ev →
  ev ≠ "" ∧ occurs " " ev = false ∧ occurs "/" ev = false.
Proof.
  intros H. apply getEventName_Ok_shape in H as (base & rest & Hb & ->).
  rewrite sanitize_bytes. split; [|split].
  - intros E. apply (f_equal String.length) in E.
    rewrite mapBytes_length, length_append in E.
    destruct base; [done|]. cbn in E. lia.
  - apply occurs_mapBytes, compliantByte_not_space.
  - apply occurs_mapBytes, compliantByte_not_slash.
Qed.

Lemma getEventName_compliant_witness :
  getEventName "My App" "a/b {x}" "x=1 2" = Ok "My_App_a:b_1_2" ∧
  "My_App_a:b_1_2" ≠ "" ∧
  occurs " " "My_App_a:b_1_2" = false ∧ occurs "/" "My_App_a:b_1_2" = false.
Proof.
  assert (H : getEventName "My App" "a/b {x}" "x=1 2" = Ok "My_App_a:b_1_2")
    by (vm_compute; reflexivity).
  split; [exact H|]. exact (getEventName_compliant _ _ _ _ H).
Defined.

(** X4: [getEventName] returns exactly when the template is empty, or
    has no placeholder, or every comma-separated piece of the query has an
    equals sign; otherwise it panics, and its only panic is the index
    fault of reading the second piece of a query piece without equals
    sign. *)
Theorem getEventName_outcome oldName rootMetricName query :
  ((∃ ev, getEventName oldName rootMetricName query = Ok ev)
   ↔ (rootMetricName = "" ∨ ¬ containsPlaceholder rootMetricName ∨
      ∀ seg, seg ∈ Split query "," → occurs "=" seg = true)) ∧
  (∀ p, getEventName oldName rootMetricName query = Panic p →
        p = IndexOutOfRange "querySplit" 1 1).
Proof.
  unfold getEventName. cbv zeta.
  case_decide as Ht.
  { split; [|done]. split; [by left|]. intros _. by eexists. }
  destruct (MatchString rootMetricName) eqn:Em.
  - destruct (decide (Forall (fun seg => occurs "=" seg = true) (Split query ",")))
      as [Hall|Hnot].
    + rewrite Forall_forall in Hall.
      rewrite (queryMap_run _ _ Hall). cbn [mbind result_bind].
      rewrite (substitute_run _ _ _ (findAllFrom_placeholders 0 rootMetricName)).
      cbn [mbind result_bind]. split; [|done].
      split; [intros _; by right; right|]. intros _. by eexists.
    + apply not_Forall_Exists in Hnot; [|apply _].
      apply Exists_exists in Hnot as (seg & Hin & Hseg).
      apply not_true_is_false in Hseg.
      rewrite (queryMap_Panic _ _ (ex_intro _ seg (conj Hin Hseg))).
      cbn [mbind result_bind]. split; [|by intros p [= <-]].
      split; [by intros [? ?]|].
      intros [?|[Hno|Hall]]; [done| |].
      * destruct Hno. by apply MatchString_contains.
      * rewrite (Hall _ Hin) in Hseg. done.
  - cbn [mbind result_bind]. split; [|done].
    split; [|intros _; by eexists].
    intros _. right; left. intros Hc. apply MatchString_placeholder in Hc. congruence.
Qed.

(** X5: in the map the resolver builds from the pieces of the query, a
    key is bound to the value of the last piece with that key, and a key
    no piece has is unbound. *)
Theorem queryMap_last_binding_wins queryStrings queryMap key :
  forRange queryMapStep queryStrings ∅ = Ok queryMap →
  queryMap !! key
  = (fun seg => takeUntil "=" (afterFirst "=" seg))
      <$> last (filter (fun seg => takeUntil "=" seg = key) queryStrings).
Proof.
  revert queryMap. induction queryStrings as [|seg segs IH] using rev_ind;
    intros queryMap H.
  - injection H as <-. done.
  - rewrite forRange_app in H. apply result_bind_Ok in H as (qm0 & H0 & H).
    rewrite forRange_cons in H. apply result_bind_Ok in H as (qm1 & H1 & H).
    injection H as <-.
    destruct (occurs "=" seg) eqn:Eo.
    + rewrite queryMapStep_Ok in H1 by done. injection H1 as <-.
      rewrite filter_app, filter_cons, filter_nil.
      case_decide as Ek.
      * subst key. rewrite lookup_insert_eq, last_snoc. done.
      * rewrite lookup_insert_ne by done. rewrite app_nil_r. by apply IH.
    + rewrite queryMapStep_Panic in H1 by done. done.
Qed.

Lemma queryMap_last_binding_wins_witness :
  forRange queryMapStep ["a=1"; "b=2"; "a=3"] ∅
  = Ok ({[ "a" := "3"; "b" := "2" ]} : gmap string string) ∧
  ({[ "a" := "3"; "b" := "2" ]} : gmap string string) !! "a" = Some "3".
Proof.
  assert (H : forRange queryMapStep ["a=1"; "b=2"; "a=3"] ∅
              = Ok ({[ "a" := "3"; "b" := "2" ]} : gmap string string))
    by (vm_compute; reflexivity).
  split; [exact H|].
  rewrite (queryMap_last_binding_wins _ _ "a" H). vm_compute. reflexivity.
Defined.

(** ** When the reducer returns *)

Lemma attrStep_returns_known m decl dq dom mg fr a0 q :
  frameInv dq dom fr → dq !! 1 = Some q →
  is_Some (thisBean fr) ∨ is_Some (thisDomain fr) →
  ∃ fr', attrStep m decl dq mg fr a0 = Ok fr'.
Proof.
  intros (Hwf & Hdom & Hb) Hq Hknown. unfold attrStep, index, deref.
  destruct (thisBean fr) as [b|] eqn:Eb.
  - destruct Hb as (q' & _ & Hat).
    destruct (beanAt_stored _ _ _ _ Hwf Hat) as [bean Hbean]. simpl in Hbean.
    rewrite Hbean. cbn [mbind result_bind].
    destruct (AttributesMap bean !! TrimSpace a0); eauto.
  - destruct Hb as [Hl _]. destruct Hknown as [[? [=]]|[l Ed]].
    rewrite Ed in *.
    destruct (wf_domain _ Hwf _ _ Hl) as [dobj Hdobj]. simpl in Hdobj.
    rewrite Hdobj, Hq. cbn [mbind result_bind]. eauto.
Qed.

Lemma attrLoop_returns_known m decl dq dom mg pieces fr q :
  frameInv dq dom fr → dq !! 1 = Some q →
  is_Some (thisBean fr) ∨ is_Some (thisDomain fr) →
  ∃ fr', forRange (attrStep m decl dq mg) pieces fr = Ok fr'.
Proof.
  intros Hinv Hq Hknown. revert fr Hinv Hknown.
  induction pieces as [|a0 pieces IH]; intros fr Hinv Hknown; [by eexists|].
  destruct (attrStep_returns_known m decl dq dom mg fr a0 q Hinv Hq Hknown)
    as [fr1 Hstep].
  rewrite forRange_cons, Hstep. cbn [mbind result_bind].
  destruct (attrStep_spec _ _ _ _ _ _ _ _ Hinv Hstep) as (? & ? & _).
  apply IH; [done|by left].
Qed.

Lemma attrLoop_known m decl dq dom mg pieces fr fr' :
  frameInv dq dom fr →
  forRange (attrStep m decl dq mg) pieces fr = Ok fr' →
  is_Some (thisBean fr) ∨ is_Some (thisDomain fr) →
  is_Some (thisBean fr') ∨ is_Some (thisDomain fr').
Proof.
  intros Hinv Hrun Hknown.
  destruct (attrLoop_spec _ _ _ _ _ _ _ _ Hinv Hrun) as (_ & Hnil & Hcons).
  destruct pieces as [|a0 pieces].
  - by rewrite (Hnil eq_refl).
  - left. by destruct (Hcons ltac:(done)) as [? _].
Qed.

Lemma metricLoop_returns_known m decl dq dom mgs fr q :
  frameInv dq dom fr → dq !! 1 = Some q →
  is_Some (thisBean fr) ∨ is_Some (thisDomain fr) →
  ∃ fr', forRange (metricStep m decl dq) mgs fr = Ok fr'.
Proof.
  intros Hinv Hq Hknown. revert fr Hinv Hknown.
  induction mgs as [|mg mgs IH]; intros fr Hinv Hknown; [by eexists|].
  destruct (attrLoop_returns_known m decl dq dom mg (Split (Attributes mg) ",") fr q
              Hinv Hq Hknown) as [fr1 Hstep].
  rewrite forRange_cons.
  change (metricStep m decl dq fr mg)
    with (forRange (attrStep m decl dq mg) (Split (Attributes mg) ",") fr).
  rewrite Hstep. cbn [mbind result_bind].
  apply IH.
  - by destruct (attrLoop_spec _ _ _ _ _ _ _ _ Hinv Hstep) as [? _].
  - by apply (attrLoop_known _ _ _ _ _ _ _ _ Hinv Hstep).
Qed.

Lemma model_lookup_None st d :
  wf st → model st !! d = None ↔ st.1 !! d = None.
Proof.
  intros Hwf. unfold model. rewrite lookup_omap.
  destruct (st.1 !! d) as [l|] eqn:El; simpl; [|done].
  destruct (wf_domain _ Hwf _ _ El) as [dobj Hdobj].
  unfold domainGroupOf. rewrite Hdobj. simpl. done.
Qed.

Lemma declStep_known m st decl q :
  wf st → queryOf decl = Some q → is_Some (st.1 !! domainOf decl) →
  ∃ st', declStep m st decl = Ok st'.
Proof.
  intros Hwf Hq [d Ed]. destruct st as [tdm h]. unfold declStep, index.
  rewrite domainOf_lookup. cbn [mbind result_bind]. simpl in Ed. rewrite Ed.
  destruct (wf_domain _ Hwf _ _ Ed) as [dobj Hdobj]. simpl in Hdobj.
  unfold deref. rewrite Hdobj. pose proof Hq as Hq'. unfold queryOf in Hq'.
  rewrite Hq'. cbn [mbind result_bind].
  set (fr0 := {| thisDomainMap := tdm; thisDomain := Some d;
                 thisBean := BeansMap dobj !! q; mem := h |}).
  assert (Hinv : frameInv (Split (ObjectName decl) ":") (domainOf decl) fr0).
  { split; [done|]. split; [apply domainOf_lookup|]. simpl.
    assert (Hat : beanAt (tdm, h) (domainOf decl) q = BeansMap dobj !! q).
    { unfold beanAt. simpl. rewrite Ed. simpl. by rewrite Hdobj. }
    destruct (BeansMap dobj !! q) as [b|] eqn:Eb.
    + exists q. done.
    + split; [done|]. intros l _. exists q. done. }
  destruct (metricLoop_returns_known m decl _ _ (Metrics decl) fr0 q Hinv Hq')
    as [fr' ->]; [right; by eexists|].
  cbn [mbind result_bind]. eauto.
Qed.

Lemma declStep_silent m st decl :
  Metrics decl = [] → st.1 !! domainOf decl = None → declStep m st decl = Ok st.
Proof.
  intros Hm Hd. destruct st as [tdm h]. unfold declStep, index.
  rewrite domainOf_lookup. cbn [mbind result_bind]. simpl in Hd. rewrite Hd, Hm.
  reflexivity.
Qed.

Lemma declStep_returns_iff m st decl :
  wf st →
  (∃ st', declStep m st decl = Ok st') ↔
  (Metrics decl ≠ [] ∨ is_Some (model st !! domainOf decl) →
   occurs ":" (ObjectName decl) = true) ∧
  (Metrics decl ≠ [] → model st !! domainOf decl = None →
   ∃ q ev, queryOf decl = Some q ∧
           getEventName (Name m) (RootMetricName decl) q = Ok ev).
Proof.
  intros Hwf. split.
  - intros [st' Hstep]. split.
    + intros Hcase. destruct (occurs ":" (ObjectName decl)) eqn:Eo; [done|].
      rewrite (declStep_no_colon m st decl Hwf Eo Hcase) in Hstep. done.
    + intros Hm Hnone.
      destruct (declStep_spec _ _ _ _ Hwf Hstep) as (_ & _ & Hcons).
      destruct (Hcons Hm) as (q & Hq & _ & Hev & _).
      pose proof (declEntries_nonempty decl Hm) as Hne.
      destruct (declEntries decl) as [|x L]; [done|].
      unfold resolved, eventTypeAt in Hev. rewrite Hnone in Hev. simpl in Hev.
      destruct Hev as (ev & Hev & _). by exists q, ev.
  - intros [Hcolon Hev].
    destruct (model st !! domainOf decl) as [g|] eqn:Eg.
    + assert (Ho : occurs ":" (ObjectName decl) = true) by (apply Hcolon; right; eauto).
      pose proof (Split_second _ _ Ho) as Hq.
      apply (declStep_known m st decl _ Hwf Hq).
      destruct (st.1 !! domainOf decl) eqn:El; [eauto|].
      apply (model_lookup_None _ _ Hwf) in El. congruence.
    + destruct (decide (Metrics decl = [])) as [Hm|Hm].
      * exists st. apply declStep_silent; [done|]. by apply model_lookup_None.
      * destruct (Hev Hm eq_refl) as (q & ev & Hq & Hok).
        by apply (declStep_returns m st decl q ev).
Qed.

Lemma head_filter_Exists {A} (P : A → Prop) `{!∀ x, Decision (P x)} (l : list A) :
  is_Some (head (filter P l)) ↔ Exists P l.
Proof.
  induction l as [|x l IH].
  - split; [by intros [? ?]|by intros ?%Exists_nil].
  - rewrite filter_cons, Exists_cons. case_decide.
    + split; [by left|]. intros _. by eexists.
    + rewrite IH. tauto.
Qed.

Lemma model_is_Some_run m decls st d :
  reduceFrom m decls (∅, emptyHeap) = Ok st →
  is_Some (model st !! d) ↔ Exists (contributes d) decls.
Proof.
  intros Hrun.
  pose proof (head_filter_Exists (contributes d) decls) as Hx. rewrite <- Hx. clear Hx.
  pose proof (eventType_run m decls st d Hrun) as H.
  destruct (head (filter (contributes d) decls)) as [decl|].
  - destruct H as (q & ev & _ & _ & H).
    destruct (model st !! d); [|done]. split; intros _; by eexists.
  - rewrite H. done.
Qed.

Lemma snoc_split {A} (ds pre post : list A) d decl :
  ds ++ [d] = pre ++ decl :: post →
  (post = [] ∧ pre = ds ∧ decl = d) ∨
  (∃ post', post = post' ++ [d] ∧ ds = pre ++ decl :: post').
Proof.
  intros E. destruct post as [|x post _] using rev_ind.
  - left. apply app_inj_tail in E as [-> ->]. done.
  - right. exists post. rewrite app_comm_cons, app_assoc in E.
    apply app_inj_tail in E as [-> ->]. done.
Qed.

Lemma reduceFrom_returns_iff m decls :
  (∃ st, reduceFrom m decls (∅, emptyHeap) = Ok st) ↔
  (∀ pre decl post, decls = pre ++ decl :: post → passes m pre decl).
Proof.
  induction decls as [|d ds IH] using rev_ind.
  - split; [|intros _; by eexists]. intros _ pre decl post E.
    by destruct pre.
  - split.
    + intros [st Hrun]. apply reduceFrom_app in Hrun as (st1 & Hpre & Hlast).
      intros pre decl post E.
      apply snoc_split in E as [(-> & -> & ->)|(post' & -> & ->)].
      * destruct (reduceFrom_spec _ _ _ _ wf_empty Hpre) as (Hwf1 & _).
        unfold reduceFrom in Hlast. rewrite forRange_cons in Hlast.
        apply result_bind_Ok in Hlast as (st2 & Hstep & _).
        pose proof (proj1 (declStep_returns_iff m st1 d Hwf1)
                      (ex_intro _ st2 Hstep)) as [Hc Hev].
        split.
        -- intros [Hm|Hex]; apply Hc; [by left|right].
           by apply (model_is_Some_run _ _ _ _ Hpre).
        -- intros Hm Hno. apply Hev; [done|].
           destruct (model st1 !! domainOf d) eqn:Eg; [|done].
           destruct Hno. apply (model_is_Some_run _ _ _ _ Hpre). eauto.
      * apply (proj1 IH (ex_intro _ st1 Hpre) pre decl post' eq_refl).
    + intros Hall.
      destruct (proj2 IH) as [st1 Hpre].
      { intros pre decl post ->. apply (Hall pre decl (post ++ [d])).
        by rewrite <- app_assoc. }
      destruct (reduceFrom_spec _ _ _ _ wf_empty Hpre) as (Hwf1 & _).
      destruct (Hall ds d [] eq_refl) as [Hc Hev].
      destruct (proj2 (declStep_returns_iff m st1 d Hwf1)) as [st2 Hstep].
      { split.
        - intros [Hm|Hex]; apply Hc; [by left|right].
          by apply (model_is_Some_run _ _ _ _ Hpre).
        - intros Hm Hnone. apply Hev; [done|].
          intros Hex. apply (model_is_Some_run _ _ _ _ Hpre) in Hex.
          rewrite Hnone in Hex. by destruct Hex. }
      exists st2. apply reduceFrom_app. exists st1. split; [done|].
      unfold reduceFrom. rewrite forRange_cons, Hstep. reflexivity.
Qed.

(** X6: [reduceJavaAgentYaml] returns exactly when every declaration
    passes: its pattern has a colon as soon as it has a metric group or an
    earlier declaration with a metric group has its domain, and the
    resolver returns for it when it is the first declaration with a metric
    group of its domain.  Otherwise the function panics. *)
Theorem reducer_returns_iff m :
  (∃ st, reduceJavaAgentYaml m = Ok (st, None)) ↔
  (∀ pre decl post, JMX m = pre ++ decl :: post → passes m pre decl).
Proof.
  rewrite <- reduceFrom_returns_iff. split.
  - intros [st H]. apply reduceJavaAgentYaml_Ok in H as [H _]. eauto.
  - intros [st H]. exists st. by apply reduceJavaAgentYaml_Ok.
Qed.

Lemma reduceFrom_without_silent m decls st st' :
  wf st → reduceFrom m decls st = Ok st' →
  reduceFrom m (filter (fun decl => Metrics decl ≠ []) decls) st = Ok st'.
Proof.
  unfold reduceFrom. revert st.
  induction decls as [|decl decls IH]; intros st Hwf Hrun; [done|].
  rewrite forRange_cons in Hrun. apply result_bind_Ok in Hrun as (st1 & Hstep & Hrun).
  destruct (declStep_spec _ _ _ _ Hwf Hstep) as (Hwf1 & Hnil & _).
  rewrite filter_cons. case_decide as Hm.
  - rewrite forRange_cons, Hstep. cbn [mbind result_bind]. by apply IH.
  - destruct (decide (Metrics decl = [])) as [Hm'|Hm']; [|contradiction].
    rewrite (Hnil Hm') in *. by apply IH.
Qed.

(** X7: the declarations without metric group contribute nothing: when
    the reduction returns, the reduction of the definition without them
    returns the same map and the same objects. *)
Theorem silent_declarations_contribute_nothing m st err :
  reduceJavaAgentYaml m = Ok (st, err) →
  reduceJavaAgentYaml (withoutSilent m) = Ok (st, err).
Proof.
  intros H. apply reduceJavaAgentYaml_Ok in H as [H ->].
  apply reduceJavaAgentYaml_Ok. split; [|done].
  apply (reduceFrom_without_silent m _ _ _ wf_empty) in H.
  exact H.
Qed.

Lemma silent_declarations_contribute_nothing_witness :
  reduceJavaAgentYaml silentFirst = Ok (silentFirstResult, None) ∧
  reduceJavaAgentYaml (withoutSilent silentFirst) = Ok (silentFirstResult, None).
Proof.
  assert (H : reduceJavaAgentYaml silentFirst = Ok (silentFirstResult, None))
    by (vm_compute; reflexivity).
  split; [exact H|]. exact (silent_declarations_contribute_nothing _ _ _ H).
Defined.

(** ** Invariants of the model *)

Lemma convertMetricType_cases s :
  convertMetricType s = "gauge" ∨ convertMetricType s = "delta".
Proof. unfold convertMetricType. cbv zeta. repeat case_decide; auto. Qed.

Lemma attrNames_nonempty mg : attrNames mg ≠ [].
Proof.
  unfold attrNames. pose proof (Split_nonempty (Attributes mg) ",").
  by destruct (Split (Attributes mg) ",").
Qed.

Lemma no_empty_group_run m decls st :
  reduceFrom m decls (∅, emptyHeap) = Ok st →
  (∀ d g, model st !! d = Some g → queryGroups g ≠ ∅) ∧
  (∀ d q am, queryGroup (model st) d q = Some am → am ≠ ∅) ∧
  (∀ d q a e, attributeEntry (model st) d q a = Some e →
     MetricName e = a ∧ (MetricType e = "gauge" ∨ MetricType e = "delta")).
Proof.
  intros Hrun. split; [|split].
  - intros d g Hg Hempty.
    pose proof (eventType_run m decls st d Hrun) as Hev.
    destruct (head (filter (contributes d) decls)) as [decl|] eqn:Eh;
      [|congruence].
    destruct Hev as (q & _ & Hq & _).
    apply head_Some_elem_of, list_elem_of_filter in Eh as [[Hd Hm] Hin].
    destruct (queryGroup_run m decls st d q Hrun) as [_ Hsome].
    destruct (proj2 Hsome) as [am Ham].
    { unfold groupsFor. intros E.
      assert (Hin' : decl ∈ filter (targets d q) decls).
      { apply list_elem_of_filter. split; [by split|done]. }
      destruct (Metrics decl) as [|mg mgs] eqn:Em; [done|].
      assert (Hmg : mg ∈ filter (targets d q) decls ≫= Metrics).
      { apply list_elem_of_bind. exists decl. split; [|done].
        rewrite Em. apply list_elem_of_here. }
      rewrite E in Hmg. by apply elem_of_nil in Hmg. }
    unfold queryGroup in Ham. rewrite Hg in Ham. simpl in Ham.
    rewrite Hempty, lookup_empty in Ham. done.
  - intros d q am Ham Hempty.
    destruct (queryGroup_run m decls st d q Hrun) as [Hdom Hsome].
    rewrite Ham in Hdom. simpl in Hdom. rewrite Hempty, dom_empty_L in Hdom.
    pose proof (proj1 Hsome (mk_is_Some _ _ Ham)) as HG.
    destruct (groupsFor d q decls) as [|mg G]; [done|].
    rewrite bind_cons in Hdom.
    pose proof (attrNames_nonempty mg) as Hne.
    destruct (attrNames mg) as [|a l]; [done|].
    assert (Ha : a ∈ (∅ : gset string)).
    { rewrite Hdom. apply elem_of_list_to_set, list_elem_of_here. }
    by apply elem_of_empty in Ha.
  - intros d q a e He.
    rewrite (attributeEntry_run m decls st d q a Hrun) in He.
    destruct (head _) as [mg|]; [|done]. injection He as <-. simpl.
    split; [done|]. apply convertMetricType_cases.
Qed.

(** X8: after a successful reduction no group is empty: every domain
    of the model has a query group and every query group an entry; and
    every entry is stored under its own metric name, with the kind gauge
    or delta. *)
Theorem model_has_no_empty_group m st err :
  reduceJavaAgentYaml m = Ok (st, err) →
  (∀ d g, model st !! d = Some g → queryGroups g ≠ ∅) ∧
  (∀ d q am, queryGroup (model st) d q = Some am → am ≠ ∅) ∧
  (∀ d q a e, attributeEntry (model st) d q a = Some e →
     MetricName e = a ∧ (MetricType e = "gauge" ∨ MetricType e = "delta")).
Proof.
  intros H. apply reduceJavaAgentYaml_Ok in H as [Hrun _].
  exact (no_empty_group_run m (JMX m) st Hrun).
Qed.

Lemma model_has_no_empty_group_witness :
  reduceJavaAgentYaml scenario = Ok (scenarioResult, None) ∧
  ∀ d g, model scenarioResult !! d = Some g → queryGroups g ≠ ∅.
Proof.
  assert (H : reduceJavaAgentYaml scenario = Ok (scenarioResult, None))
    by (vm_compute; reflexivity).
  split; [exact H|]. exact (proj1 (model_has_no_empty_group _ _ _ H)).
Defined.

Lemma size_list_to_set_le (l : list string) :
  size (list_to_set l : gset string) ≤ length l.
Proof.
  induction l as [|x l IH].
  { change (size (∅ : gset string) ≤ 0). by rewrite size_empty. }
  cbn [list_to_set length]. rewrite size_union_alt, size_singleton.
  assert (Hsub : size ((list_to_set l : gset string) ∖ {[x]})
                 ≤ size (list_to_set l : gset string)).
  { apply subseteq_size, subseteq_difference_l. done. }
  lia.
Qed.

Lemma domains_run m decls st :
  reduceFrom m decls (∅, emptyHeap) = Ok st →
  dom (model st)
  = (list_to_set (domainOf <$> filter (fun decl => Metrics decl ≠ []) decls)
     : gset string) ∧
  size (model st) ≤ length decls.
Proof.
  intros Hrun.
  assert (Hdom : dom (model st)
    = (list_to_set (domainOf <$> filter (fun decl => Metrics decl ≠ []) decls)
       : gset string)).
  { apply set_eq. intros d. rewrite elem_of_dom, elem_of_list_to_set.
    rewrite (model_is_Some_run m decls st d Hrun), Exists_exists.
    rewrite list_elem_of_fmap. split.
    - intros (decl & Hin & Hd & Hm). exists decl. split; [done|].
      apply list_elem_of_filter. done.
    - intros (decl & -> & Hin). apply list_elem_of_filter in Hin as [Hm Hin].
      exists decl. done. }
  split; [done|].
  rewrite <- size_dom, Hdom.
  etrans; [apply size_list_to_set_le|].
  rewrite length_fmap. apply length_filter.
Qed.

(** X9: the domains of the model are the domains of the declarations
    that have a metric group; there are at most as many as
    declarations. *)
Theorem model_domains m st err :
  reduceJavaAgentYaml m = Ok (st, err) →
  dom (model st)
  = (list_to_set (domainOf <$> filter (fun decl => Metrics decl ≠ []) (JMX m))
     : gset string) ∧
  size (model st) ≤ length (JMX m).
Proof.
  intros H. apply reduceJavaAgentYaml_Ok in H as [Hrun _].
  exact (domains_run m (JMX m) st Hrun).
Qed.

Lemma model_domains_witness :
  reduceJavaAgentYaml scenario = Ok (scenarioResult, None) ∧
  size (model scenarioResult) ≤ length (JMX scenario).
Proof.
  assert (H : reduceJavaAgentYaml scenario = Ok (scenarioResult, None))
    by (vm_compute; reflexivity).
  split; [exact H|]. exact (proj2 (model_domains _ _ _ H)).
Defined.

(** ** Reducing the same declarations again *)

Lemma model_ext st st' :
  (∀ d, eventTypeAt st d = eventTypeAt st' d) →
  (∀ d q, queryGroup (model st) d q = queryGroup (model st') d q) →
  model st = model st'.
Proof.
  intros Hev Hq. apply map_eq. intros d.
  specialize (Hev d). unfold eventTypeAt in Hev.
  pose proof (Hq d) as Hqd. unfold queryGroup in Hqd.
  destruct (model st !! d) as [[ev qs]|], (model st' !! d) as [[ev' qs']|];
    simpl in *; try done.
  injection Hev as <-. f_equal. f_equal. apply map_eq. intros q. apply Hqd.
Qed.

Lemma addAll_Some L o :
  L ≠ [] → addAll L o = Some (default ∅ o ∪ list_to_map L).
Proof.
  intros HL. pose proof (addAll_union L o) as Hu.
  destruct (addAll L o) as [am|] eqn:E.
  - simpl in Hu. by rewrite Hu.
  - apply addAll_None in E as [? _]. done.
Qed.

Lemma addAll_twice L : addAll L (addAll L None) = addAll L None.
Proof.
  destruct (decide (L = [])) as [->|HL]; [done|].
  rewrite (addAll_Some L None HL). rewrite (addAll_Some L _ HL). simpl.
  f_equal. rewrite (left_id_L ∅ (∪)). apply (idemp_L (∪)).
Qed.

Lemma reduceFrom_again m decls st st2 :
  reduceFrom m decls (∅, emptyHeap) = Ok st →
  reduceFrom m decls st = Ok st2 →
  model st2 = model st.
Proof.
  intros H1 H2.
  destruct (reduceFrom_spec _ _ _ _ wf_empty H1) as (Hwf & Hq1 & Hev1 & _).
  destruct (reduceFrom_spec _ _ _ _ Hwf H2) as (_ & Hq2 & Hev2 & _).
  apply model_ext.
  - intros d. specialize (Hev1 d). specialize (Hev2 d).
    rewrite eventTypeAt_empty in Hev1. unfold eventSpec in *.
    destruct (eventTypeAt st d) as [ev|]; [done|].
    destruct (head (filter (contributes d) decls)) as [decl|]; [|done].
    destruct Hev1 as (q & _ & ev & _ & [=]).
  - intros d q. rewrite Hq2, Hq1, queryGroup_empty. apply addAll_twice.
Qed.

(** X10: giving every declaration twice changes nothing: when the
    definition and the definition with its declaration list doubled both
    reduce, the two models are equal. *)
Theorem reducing_twice_changes_nothing m st err st2 err2 :
  reduceJavaAgentYaml m = Ok (st, err) →
  reduceJavaAgentYaml (twice m) = Ok (st2, err2) →
  model st2 = model st.
Proof.
  intros H1 H2. apply reduceJavaAgentYaml_Ok in H1 as [H1 _].
  apply reduceJavaAgentYaml_Ok in H2 as [H2 _].
  change (JMX (twice m)) with (JMX m ++ JMX m) in H2.
  assert (H2' : reduceFrom m (JMX m ++ JMX m) (∅, emptyHeap) = Ok st2) by exact H2.
  apply reduceFrom_app in H2' as (st1 & Ha & Hb).
  rewrite H1 in Ha. injection Ha as <-.
  by apply (reduceFrom_again m (JMX m)).
Qed.

Lemma reducing_twice_changes_nothing_witness :
  reduceJavaAgentYaml scenario = Ok (scenarioResult, None) ∧
  reduceJavaAgentYaml (twice scenario) = Ok (scenarioTwiceResult, None) ∧
  model scenarioTwiceResult = model scenarioResult.
Proof.
  assert (H1 : reduceJavaAgentYaml scenario = Ok (scenarioResult, None))
    by (vm_compute; reflexivity).
  assert (H2 : reduceJavaAgentYaml (twice scenario) = Ok (scenarioTwiceResult, None))
    by (vm_compute; reflexivity).
  split; [exact H1|]. split; [exact H2|].
  exact (reducing_twice_changes_nothing _ _ _ _ _ H1 H2).
Defined.

(** ** What the emitter returns *)

Lemma Forall2_fmap_eq {A B C} (R : A → B → Prop) (f : B → C) (g : A → C) l k :
  (∀ a b, R a b → f b = g a) → Forall2 R l k → f <$> k = g <$> l.
Proof.
  intros HR H. induction H as [|a b l k Hab _ IH]; [done|].
  cbn. by rewrite (HR _ _ Hab), IH.
Qed.

Lemma Forall2_elem_r {A B} (R : A → B → Prop) l k b :
  Forall2 R l k → b ∈ k → ∃ a, a ∈ l ∧ R a b.
Proof.
  intros H Hb. apply list_elem_of_lookup in Hb as [i Hi].
  destruct (Forall2_lookup_r _ _ _ _ _ H Hi) as (a & Ha & HR).
  exists a. split; [|done]. by apply list_elem_of_lookup_2 in Ha.
Qed.

Lemma Forall2_elem_l {A B} (R : A → B → Prop) l k a :
  Forall2 R l k → a ∈ l → ∃ b, b ∈ k ∧ R a b.
Proof.
  intros H Ha. apply list_elem_of_lookup in Ha as [i Hi].
  destruct (Forall2_lookup_l _ _ _ _ _ H Hi) as (b & Hb & HR).
  exists b. split; [|done]. by apply list_elem_of_lookup_2 in Hb.
Qed.

Lemma ranges_NoDup {V} (m : gmap string V) kvs : ranges m kvs → NoDup kvs.*1.
Proof. unfold ranges. intros ->. apply NoDup_fst_map_to_list. Qed.

Lemma ranges_elem {V} (m : gmap string V) kvs k v :
  ranges m kvs → (k, v) ∈ kvs ↔ m !! k = Some v.
Proof. unfold ranges. intros ->. apply elem_of_map_to_list. Qed.

Lemma ranges_length {V} (m : gmap string V) kvs : ranges m kvs → length kvs = size m.
Proof. unfold ranges. intros ->. by rewrite length_map_to_list. Qed.

Lemma buildDomain_key h kv o : buildDomain h kv o → Out.Domain o = kv.1.
Proof. by intros (? & _ & ? & _). Qed.

Lemma buildBean_key h kv o : buildBean h kv o → Out.Query o = kv.1.
Proof. by intros (? & _ & ? & _). Qed.

(** X11: whatever [buildCollectionDefinition] returns has one domain
    record per key of the reduction, no two with the same domain; in a
    domain record no two beans have the same query, and in a bean no two
    attributes the same name. *)
Theorem emitter_lists_each_key_once dr out :
  buildCollectionDefinition dr out →
  length out = size dr.1 ∧
  NoDup (Out.Domain <$> out) ∧
  ∀ dout, dout ∈ out →
    NoDup (Out.Query <$> Out.Beans dout) ∧
    ∀ bout, bout ∈ Out.Beans dout → NoDup (Out.Attr <$> Out.Attributes bout).
Proof.
  intros (kvs & Hr & Hall). split; [|split].
  - rewrite <- (ranges_length _ _ Hr). symmetry. by apply Forall2_length in Hall.
  - rewrite (Forall2_fmap_eq _ Out.Domain fst _ _ (buildDomain_key dr.2) Hall).
    by apply (ranges_NoDup dr.1).
  - intros dout Hdout.
    destruct (Forall2_elem_r _ _ _ _ Hall Hdout) as (kv & _ & dobj & _ & _ & _ & Hbeans).
    destruct Hbeans as (bkvs & Hbr & Hball). split.
    + rewrite (Forall2_fmap_eq _ Out.Query fst _ _ (buildBean_key dr.2) Hball).
      by apply (ranges_NoDup (BeansMap dobj)).
    + intros bout Hbout.
      destruct (Forall2_elem_r _ _ _ _ Hball Hbout)
        as (bkv & _ & bean & _ & _ & akvs & Har & ->).
      rewrite <- list_fmap_compose.
      by apply (ranges_NoDup (AttributesMap bean)).
Qed.

Lemma emitter_lists_each_key_once_witness :
  buildCollectionDefinition scenarioResult scenarioForwards ∧
  NoDup (Out.Domain <$> scenarioForwards).
Proof.
  assert (H : buildCollectionDefinition scenarioResult scenarioForwards)
    by (apply (emit_builds false); vm_compute; reflexivity).
  split; [exact H|]. exact (proj1 (proj2 (emitter_lists_each_key_once _ _ H))).
Defined.

Lemma builds_domain dr out dout :
  buildCollectionDefinition dr out → dout ∈ out →
  ∃ l dobj, dr.1 !! Out.Domain dout = Some l ∧ domainObjs dr.2 !! l = Some dobj ∧
            Out.EventType dout = EventType dobj ∧
            buildBeans dr.2 (BeansMap dobj) (Out.Beans dout).
Proof.
  intros (kvs & Hr & Hall) Hdout.
  destruct (Forall2_elem_r _ _ _ _ Hall Hdout) as ([d l] & Hkv & dobj & Hl & Hd & Hev & Hb).
  simpl in *. exists l, dobj. rewrite Hd. split; [|done].
  by apply (ranges_elem _ _ _ _ Hr).
Qed.

Lemma builds_bean h beansMap beans bout :
  buildBeans h beansMap beans → bout ∈ beans →
  ∃ b bean, beansMap !! Out.Query bout = Some b ∧ beanObjs h !! b = Some bean ∧
            buildAttributes (AttributesMap bean) (Out.Attributes bout).
Proof.
  intros (kvs & Hr & Hall) Hbout.
  destruct (Forall2_elem_r _ _ _ _ Hall Hbout) as ([q b] & Hkv & bean & Hb & Hq & Ha).
  simpl in *. exists b, bean. rewrite Hq. split; [|done].
  by apply (ranges_elem _ _ _ _ Hr).
Qed.

Lemma builds_attribute attributesMap attributes a e :
  buildAttributes attributesMap attributes →
  attributeOutputOf (a, e) ∈ attributes ↔ attributesMap !! a = Some e.
Proof.
  intros (kvs & Hr & ->). rewrite <- (ranges_elem _ _ _ _ Hr). split.
  - intros ([a' e'] & E & Hin)%list_elem_of_fmap.
    unfold attributeOutputOf in E. simpl in E. injection E as -> HT HN.
    destruct e, e'. simpl in *. by subst.
  - intros Hin. apply list_elem_of_fmap. by exists (a, e).
Qed.

Lemma model_lookup_heap dr d l dobj :
  dr.1 !! d = Some l → domainObjs dr.2 !! l = Some dobj →
  model dr !! d = Some {| eventType := EventType dobj;
                          queryGroups := queryGroupsOf dr.2 (BeansMap dobj) |}.
Proof.
  intros Hl Hdobj. unfold model. rewrite lookup_omap, Hl. simpl.
  unfold domainGroupOf. by rewrite Hdobj.
Qed.

(** X12: the emitter loses nothing and invents nothing: in whatever it
    returns, a domain record with a given domain and event type has a bean
    with a given query that lists an attribute with a given name, kind and
    metric name exactly when the model of the reduction has that event
    type for the domain and that entry for the domain, the query and the
    name. *)
Theorem emitter_faithful dr out d ev q a e :
  buildCollectionDefinition dr out →
  (∃ dout bout,
     dout ∈ out ∧ Out.Domain dout = d ∧ Out.EventType dout = ev ∧
     bout ∈ Out.Beans dout ∧ Out.Query bout = q ∧
     attributeOutputOf (a, e) ∈ Out.Attributes bout)
  ↔ eventTypeAt dr d = Some ev ∧ attributeEntry (model dr) d q a = Some e.
Proof.
  intros Hb. split.
  - intros (dout & bout & Hdout & <- & <- & Hbout & <- & Ha).
    destruct (builds_domain _ _ _ Hb Hdout) as (l & dobj & Hl & Hdobj & Hev & Hbeans).
    destruct (builds_bean _ _ _ _ Hbeans Hbout) as (b & bean & Hq & Hbean & Hattrs).
    apply (builds_attribute _ _ _ _ Hattrs) in Ha.
    unfold eventTypeAt, attributeEntry, queryGroup.
    rewrite (model_lookup_heap _ _ _ _ Hl Hdobj). simpl.
    split; [by rewrite Hev|].
    unfold queryGroupsOf. rewrite lookup_omap, Hq. simpl. rewrite Hbean. simpl.
    done.
  - intros [Hev He].
    destruct (builds_has_attribute dr out d q a e Hb He)
      as (dout & bout & aout & Hdout & Hd & Hbout & Hq & Ha & ->).
    exists dout, bout. repeat (split; [done|]). split; [|done].
    destruct (builds_domain _ _ _ Hb Hdout) as (l & dobj & Hl & Hdobj & Hev' & _).
    rewrite Hd in Hl. unfold eventTypeAt in Hev.
    rewrite (model_lookup_heap _ _ _ _ Hl Hdobj) in Hev. simpl in Hev.
    congruence.
Qed.

Lemma emitter_faithful_witness :
  buildCollectionDefinition scenarioResult scenarioBackwards ∧
  eventTypeAt scenarioResult "domain" = Some "MyApp_Thing_A" ∧
  attributeEntry (model scenarioResult) "domain" "type=Thing,name=A" "errors"
  = Some {| MetricType := "delta"; MetricName := "errors" |} ∧
  ∃ dout bout,
    dout ∈ scenarioBackwards ∧ Out.Domain dout = "domain" ∧
    Out.EventType dout = "MyApp_Thing_A" ∧
    bout ∈ Out.Beans dout ∧ Out.Query bout = "type=Thing,name=A" ∧
    {| Out.Attr := "errors"; Out.MetricType := "delta"; Out.MetricName := "errors" |}
      ∈ Out.Attributes bout.
Proof.
  assert (H : buildCollectionDefinition scenarioResult scenarioBackwards)
    by (apply (emit_builds true); vm_compute; reflexivity).
  assert (Hev : eventTypeAt scenarioResult "domain" = Some "MyApp_Thing_A")
    by (vm_compute; reflexivity).
  assert (He : attributeEntry (model scenarioResult) "domain" "type=Thing,name=A" "errors"
               = Some {| MetricType := "delta"; MetricName := "errors" |})
    by (vm_compute; reflexivity).
  split; [exact H|]. split; [exact Hev|]. split; [exact He|].
  exact (proj2 (emitter_faithful _ _ _ _ _ _ _ H) (conj Hev He)).
Defined.

(** X13: on the result of a successful reduction
    [buildCollectionDefinition] returns (it dereferences no nil pointer);
    whatever it returns has at most as many domain records as the
    definition has declarations, every domain record has a bean and every
    bean an attribute. *)
Theorem emitter_returns_on_reductions m st err :
  reduceJavaAgentYaml m = Ok (st, err) →
  (∃ out, buildCollectionDefinition st out) ∧
  ∀ out, buildCollectionDefinition st out →
    length out ≤ length (JMX m) ∧
    ∀ dout, dout ∈ out →
      Out.Beans dout ≠ [] ∧
      ∀ bout, bout ∈ Out.Beans dout → Out.Attributes bout ≠ [].
Proof.
  intros H. apply reduceJavaAgentYaml_Ok in H as [Hrun _].
  pose proof (no_empty_group_run m (JMX m) st Hrun) as (Hg & Hq & _).
  pose proof (domains_run m (JMX m) st Hrun) as [_ Hsize].
  destruct (reduceFrom_spec _ _ _ _ wf_empty Hrun) as (Hwf & _).
  split.
  { destruct (emit_total false st Hwf) as [out Hout].
    exists out. by apply (emit_builds false). }
  intros out Hb. split.
  { destruct Hb as (kvs & Hr & Hall).
    rewrite <- (Forall2_length _ _ _ Hall), (ranges_length _ _ Hr).
    unfold model in Hsize.
    etrans; [|exact Hsize].
    rewrite <- !size_dom. apply Nat.eq_le_incl. f_equal.
    apply set_eq. intros d. rewrite !elem_of_dom, lookup_omap.
    destruct (st.1 !! d) as [l|] eqn:El; simpl; [|done].
    destruct (wf_domain _ Hwf _ _ El) as [dobj Hdobj].
    unfold domainGroupOf. rewrite Hdobj. simpl. split; intros _; by eexists. }
  intros dout Hdout.
  destruct (builds_domain _ _ _ Hb Hdout) as (l & dobj & Hl & Hdobj & _ & Hbeans).
  pose proof (model_lookup_heap _ _ _ _ Hl Hdobj) as Hm.
  split.
  - intros Hnil. apply (Hg _ _ Hm). simpl.
    destruct Hbeans as (kvs & Hr & Hall). rewrite Hnil in Hall.
    apply Forall2_nil_inv_r in Hall. subst kvs.
    apply map_eq. intros q. unfold queryGroupsOf. rewrite lookup_omap, lookup_empty.
    destruct (BeansMap dobj !! q) as [b|] eqn:Eb; [|done].
    apply (ranges_elem _ _ _ _ Hr) in Eb. by apply elem_of_nil in Eb.
  - intros bout Hbout Hnil.
    destruct (builds_bean _ _ _ _ Hbeans Hbout) as (b & bean & Hqb & Hbean & Hattrs).
    apply (Hq (Out.Domain dout) (Out.Query bout) (AttributesMap bean)).
    + unfold queryGroup. rewrite Hm. simpl. unfold queryGroupsOf.
      rewrite lookup_omap, Hqb. simpl. by rewrite Hbean.
    + destruct Hattrs as (kvs & Hr & E). rewrite Hnil in E.
      symmetry in E. apply fmap_nil_inv in E. subst kvs.
      apply map_eq. intros a. rewrite lookup_empty.
      destruct (AttributesMap bean !! a) as [e|] eqn:Ea; [|done].
      apply (ranges_elem _ _ _ _ Hr) in Ea. by apply elem_of_nil in Ea.
Qed.

Lemma emitter_returns_on_reductions_witness :
  reduceJavaAgentYaml scenario = Ok (scenarioResult, None) ∧
  ∃ out, buildCollectionDefinition scenarioResult out.
Proof.
  assert (H : reduceJavaAgentYaml scenario = Ok (scenarioResult, None))
    by (vm_compute; reflexivity).
  split; [exact H|]. exact (proj1 (emitter_returns_on_reductions _ _ _ H)).
Defined.

(** ** The simple parse, declaration by declaration *)

Lemma parseDecl_no_colon m decl :
  occurs ":" (ObjectName decl) = false →
  parseDecl m decl = Panic (IndexOutOfRange "domainAndQuery" 1 1).
Proof.
  intros Hno. unfold parseDecl. cbv zeta. rewrite (Split_none _ _ Hno).
  destruct (Metrics decl) as [|mg mgs]; [reflexivity|].
  rewrite forRange_cons. reflexivity.
Qed.

Lemma parseDecl_Ok m decl dout :
  parseDecl m decl = Ok dout ↔ simpleDomain m decl dout.
Proof.
  destruct (occurs ":" (ObjectName decl)) eqn:Eo.
  - rewrite (parseDecl_colon m decl Eo). unfold simpleDomain.
    rewrite domainOf_takeUntil. unfold queryOf. rewrite (Split_second _ _ Eo).
    set (q := takeUntil ":" (afterFirst ":" (ObjectName decl))).
    assert (Hbeans : (fun mg => {| Out.Query := q;
                                   Out.Attributes := attributeOutputOf <$> entriesOf mg |})
                       <$> Metrics decl
                     = simpleBean q <$> Metrics decl).
    { apply list_fmap_ext. intros _ mg _. unfold simpleBean, entriesOf. f_equal.
      by rewrite <- list_fmap_compose. }
    rewrite Hbeans. split.
    + intros (ev & Hev & [= <-])%result_bind_Ok. exists q. done.
    + intros (q' & [= <-] & Hd & Hev & Hb). rewrite Hev. cbn [mbind result_bind].
      destruct dout. simpl in *. by subst.
  - rewrite (parseDecl_no_colon m decl Eo). split; [done|].
    intros (q & Hq & _). apply queryOf_Some_colon in Hq. congruence.
Qed.

Lemma parseLoop_Ok m decls acc out :
  forRange (fun domains jmxObject => d ← parseDecl m jmxObject; Ok (domains ++ [d]))
           decls acc = Ok out
  ↔ ∃ ds, out = acc ++ ds ∧ Forall2 (simpleDomain m) decls ds.
Proof.
  revert acc. induction decls as [|decl decls IH]; intros acc.
  - simpl. split.
    + intros [= <-]. exists []. by rewrite app_nil_r.
    + intros (ds & -> & ->%Forall2_nil_inv_l). by rewrite app_nil_r.
  - rewrite forRange_cons, result_bind_Ok. split.
    + intros (acc1 & (d & Hd & [= <-])%result_bind_Ok & (ds & -> & Hds)%IH).
      exists (d :: ds). rewrite <- app_assoc. split; [done|].
      constructor; [by apply parseDecl_Ok|done].
    + intros (ds & -> & Hall). apply Forall2_cons_inv_l in Hall as (d & ds' & Hd & Hds & ->).
      exists (acc ++ [d]). split.
      * apply parseDecl_Ok in Hd. rewrite Hd. reflexivity.
      * apply IH. exists ds'. by rewrite <- app_assoc.
Qed.

Lemma parse_Ok m out err :
  parseJavaAgentJmxDefinition m = Ok (out, err) ↔
  err = None ∧ Forall2 (simpleDomain m) (JMX m) out.
Proof.
  unfold parseJavaAgentJmxDefinition. rewrite result_bind_Ok. split.
  - intros (ds & (ds' & -> & Hall)%parseLoop_Ok & [= <- <-]). done.
  - intros [-> Hall]. exists out. split; [|done]. apply parseLoop_Ok. by exists out.
Qed.

(** X14: when [parseJavaAgentJmxDefinition] returns, its error is nil
    and it has one domain record per declaration, in input order, nothing
    merged: the record of a declaration has its domain, the event name the
    resolver returns for it, and one bean per metric group, in order, with
    the declaration's query and one attribute per piece of the attribute
    string, trimmed, in order. *)
Theorem simple_parse_keeps_every_declaration m out err :
  parseJavaAgentJmxDefinition m = Ok (out, err) →
  err = None ∧
  Forall2 (simpleDomain m) (JMX m) out ∧
  length out = length (JMX m) ∧
  Out.Domain <$> out = domainOf <$> JMX m.
Proof.
  intros [-> Hall]%parse_Ok. split; [done|]. split; [done|]. split.
  - symmetry. by apply Forall2_length in Hall.
  - apply (Forall2_fmap_eq (simpleDomain m)); [|done].
    by intros decl dout (q & _ & ? & _).
Qed.

Lemma simple_parse_keeps_every_declaration_witness :
  parseJavaAgentJmxDefinition scenario = Ok (scenarioSimple, None) ∧
  length scenarioSimple = length (JMX scenario).
Proof.
  assert (H : parseJavaAgentJmxDefinition scenario = Ok (scenarioSimple, None))
    by (vm_compute; reflexivity).
  split; [exact H|].
  exact (proj1 (proj2 (proj2 (simple_parse_keeps_every_declaration _ _ _ H)))).
Defined.

Lemma forRange_Panic {A S} (body : S → A → result S) xs x :
  x ∈ xs → (∀ s, ∃ p, body s x = Panic p) → ∀ s, ∃ p, forRange body xs s = Panic p.
Proof.
  intros Hin Hx. induction xs as [|y xs IH]; intros s; [by apply elem_of_nil in Hin|].
  rewrite forRange_cons. apply elem_of_cons in Hin as [<-|Hin].
  - destruct (Hx s) as [p ->]. by exists p.
  - destruct (body s y) as [s'|p]; [|by exists p]. cbn [mbind result_bind].
    by apply IH.
Qed.

(** X15: a declaration whose pattern has no colon makes the simple
    parse panic, with or without metric groups, with the index fault of
    reading the query; the reduction of a definition made of one such
    declaration without metric group returns the empty map. *)
Theorem simple_parse_needs_every_colon m decl :
  decl ∈ JMX m → occurs ":" (ObjectName decl) = false →
  parseDecl m decl = Panic (IndexOutOfRange "domainAndQuery" 1 1) ∧
  (∃ p, parseJavaAgentJmxDefinition m = Panic p) ∧
  (Metrics decl = [] → JMX m = [decl] →
   reduceJavaAgentYaml m = Ok ((∅, emptyHeap), None)).
Proof.
  intros Hin Hno. split; [by apply parseDecl_no_colon|]. split.
  - unfold parseJavaAgentJmxDefinition.
    destruct (forRange_Panic
                (fun domains jmxObject => d ← parseDecl m jmxObject; Ok (domains ++ [d]))
                (JMX m) decl Hin) with (s := @nil Out.domainOutput) as [p Hp].
    { intros s. rewrite (parseDecl_no_colon m decl Hno). by eexists. }
    rewrite Hp. by exists p.
  - intros Hm Hone. apply reduceJavaAgentYaml_Ok. split; [|done].
    rewrite Hone. unfold reduceFrom. rewrite forRange_cons.
    rewrite (declStep_silent m _ decl Hm); [reflexivity|]. apply lookup_empty.
Qed.

Lemma simple_parse_needs_every_colon_witness :
  parseJavaAgentJmxDefinition silentNoColon
  = Panic (IndexOutOfRange "domainAndQuery" 1 1) ∧
  reduceJavaAgentYaml silentNoColon = Ok ((∅, emptyHeap), None).
Proof.
  assert (Hin : {| ObjectName := "d"; RootMetricName := ""; Metrics := [] |}
                  ∈ JMX silentNoColon) by apply list_elem_of_here.
  assert (Hno : occurs ":" (ObjectName {| ObjectName := "d"; RootMetricName := "";
                                          Metrics := [] |}) = false)
    by reflexivity.
  destruct (simple_parse_needs_every_colon silentNoColon _ Hin Hno) as (_ & _ & Hred).
  split; [vm_compute; reflexivity|]. apply Hred; reflexivity.
Defined.

(** ** The simple parse and the reduction *)

Lemma simpleDomain_resolves m decls out decl :
  Forall2 (simpleDomain m) decls out → decl ∈ decls →
  ∃ q ev, queryOf decl = Some q ∧
          getEventName (Name m) (RootMetricName decl) q = Ok ev.
Proof.
  intros Hall Hin.
  destruct (Forall2_elem_l _ _ _ _ Hall Hin) as (dout & _ & q & Hq & _ & Hev & _).
  eauto.
Qed.

(** X16: whenever the simple parse returns, the reducing parse
    returns. *)
Theorem reducer_returns_when_simple_parse_does m out err :
  parseJavaAgentJmxDefinition m = Ok (out, err) →
  ∃ st, reduceJavaAgentYaml m = Ok (st, None).
Proof.
  intros [_ Hall]%parse_Ok.
  destruct (reduceFrom_returns m (JMX m) (∅, emptyHeap) wf_empty) as [st Hst].
  { intros decl Hin. by apply (simpleDomain_resolves m (JMX m) out). }
  exists st. by apply reduceJavaAgentYaml_Ok.
Qed.

Lemma reducer_returns_when_simple_parse_does_witness :
  parseJavaAgentJmxDefinition scenario = Ok (scenarioSimple, None) ∧
  ∃ st, reduceJavaAgentYaml scenario = Ok (st, None).
Proof.
  assert (H : parseJavaAgentJmxDefinition scenario = Ok (scenarioSimple, None))
    by (vm_compute; reflexivity).
  split; [exact H|]. exact (reducer_returns_when_simple_parse_does _ _ _ H).
Defined.

Lemma listed_simple m decls out d q a :
  Forall2 (simpleDomain m) decls out →
  listed out d q a ↔
  ∃ decl mg, decl ∈ decls ∧ targets d q decl ∧ mg ∈ Metrics decl ∧ a ∈ attrNames mg.
Proof.
  intros Hall. split.
  - intros (dout & bout & aout & Hdout & <- & Hbout & <- & Haout & <-).
    destruct (Forall2_elem_r _ _ _ _ Hall Hdout) as (decl & Hin & q & Hq & Hd & _ & Hb).
    rewrite Hb in Hbout. apply list_elem_of_fmap in Hbout as (mg & -> & Hmg).
    simpl in Haout. apply list_elem_of_fmap in Haout as (a & -> & Ha). simpl.
    exists decl, mg. split; [done|]. split; [by split|]. done.
  - intros (decl & mg & Hin & [Hd Hq] & Hmg & Ha).
    destruct (Forall2_elem_l _ _ _ _ Hall Hin) as (dout & Hdout & q' & Hq' & Hd' & _ & Hb).
    assert (q' = q) as -> by congruence.
    exists dout, (simpleBean q mg),
      {| Out.Attr := a; Out.MetricType := convertMetricType (Type_ mg);
         Out.MetricName := a |}.
    split; [done|]. split; [congruence|]. split.
    { rewrite Hb. by apply list_elem_of_fmap_2. }
    split; [done|]. split; [|done]. simpl.
    apply list_elem_of_fmap. by exists a.
Qed.

Lemma entry_is_Some_run m decls st d q a :
  reduceFrom m decls (∅, emptyHeap) = Ok st →
  is_Some (attributeEntry (model st) d q a) ↔
  ∃ decl mg, decl ∈ decls ∧ targets d q decl ∧ mg ∈ Metrics decl ∧ a ∈ attrNames mg.
Proof.
  intros Hrun. rewrite (attributeEntry_run m decls st d q a Hrun).
  rewrite fmap_is_Some.
  pose proof (head_filter_Exists (fun mg => a ∈ attrNames mg) (groupsFor d q decls))
    as Hx. rewrite Hx. clear Hx.
  rewrite Exists_exists. unfold groupsFor. split.
  - intros (mg & (decl & Hmg & Hdecl)%list_elem_of_bind & Ha).
    apply list_elem_of_filter in Hdecl as [Ht Hin]. by exists decl, mg.
  - intros (decl & mg & Hin & Ht & Hmg & Ha). exists mg. split; [|done].
    apply list_elem_of_bind. exists decl. split; [done|].
    by apply list_elem_of_filter.
Qed.

Lemma first_contributor_simple m decls out d :
  Forall2 (simpleDomain m) decls out →
  match head (filter (contributes d) decls) with
  | Some decl =>
      ∃ dout, head (filter (fun dout => Out.Domain dout = d ∧ Out.Beans dout ≠ []) out)
              = Some dout ∧ simpleDomain m decl dout
  | None => head (filter (fun dout => Out.Domain dout = d ∧ Out.Beans dout ≠ []) out)
            = None
  end.
Proof.
  intros Hall. induction Hall as [|decl dout decls out Hd _ IH]; [done|].
  assert (Hiff : contributes d decl ↔ (Out.Domain dout = d ∧ Out.Beans dout ≠ [])).
  { destruct Hd as (q & _ & Hdom & _ & Hb). unfold contributes. rewrite Hdom, Hb.
    split; intros [? Hne]; (split; [done|]); intros E; apply Hne.
    - by apply fmap_nil_inv in E.
    - by rewrite E. }
  rewrite !filter_cons.
  destruct (decide (contributes d decl)) as [Hc|Hc].
  - rewrite decide_True by (by apply Hiff). simpl. by exists dout.
  - rewrite decide_False by (by rewrite <- Hiff). exact IH.
Qed.

(** X17: the reduction is the simple parse with the duplicates merged:
    when both return, the model has an entry for a domain, a query and an
    attribute name exactly when the simple parse lists that name under
    that query in a record of that domain; the event type of a domain of
    the model is the one of the first record of that domain that has a
    bean; and the model has at most as many domains as the simple parse
    has records. *)
Theorem reduction_merges_simple_parse m out err st err' :
  parseJavaAgentJmxDefinition m = Ok (out, err) →
  reduceJavaAgentYaml m = Ok (st, err') →
  (∀ d q a, is_Some (attributeEntry (model st) d q a) ↔ listed out d q a) ∧
  (∀ d, eventTypeAt st d
        = Out.EventType
            <$> head (filter (fun dout => Out.Domain dout = d ∧ Out.Beans dout ≠ [])
                             out)) ∧
  size (model st) ≤ length out.
Proof.
  intros [_ Hall]%parse_Ok [Hrun _]%reduceJavaAgentYaml_Ok. split; [|split].
  - intros d q a. rewrite (entry_is_Some_run m (JMX m) st d q a Hrun).
    by rewrite (listed_simple m (JMX m) out d q a Hall).
  - intros d. pose proof (eventType_run m (JMX m) st d Hrun) as Hev.
    pose proof (first_contributor_simple m (JMX m) out d Hall) as Hfst.
    unfold eventTypeAt.
    destruct (head (filter (contributes d) (JMX m))) as [decl|].
    + destruct Hev as (q & ev & Hq & Hok & ->).
      destruct Hfst as (dout & -> & q' & Hq' & _ & Hok' & _). simpl.
      congruence.
    + by rewrite Hev, Hfst.
  - rewrite <- (Forall2_length _ _ _ Hall).
    apply (domains_run m (JMX m) st Hrun).
Qed.

Lemma reduction_merges_simple_parse_witness :
  parseJavaAgentJmxDefinition scenario = Ok (scenarioSimple, None) ∧
  reduceJavaAgentYaml scenario = Ok (scenarioResult, None) ∧
  size (model scenarioResult) ≤ length scenarioSimple.
Proof.
  assert (H1 : parseJavaAgentJmxDefinition scenario = Ok (scenarioSimple, None))
    by (vm_compute; reflexivity).
  assert (H2 : reduceJavaAgentYaml scenario = Ok (scenarioResult, None))
    by (vm_compute; reflexivity).
  split; [exact H1|]. split; [exact H2|].
  exact (proj2 (proj2 (reduction_merges_simple_parse _ _ _ _ _ H1 H2))).
Defined.

(** ** The order of the declarations *)

(** X18: which entries exist does not depend on the order of the
    declarations: two definitions whose declaration lists are permutations
    of each other and which both reduce give models with the same domains
    and with entries for the same domains, queries and attribute names. *)
Theorem reduction_keys_do_not_depend_on_order m m' st err st' err' :
  JMX m' ≡ₚ JMX m →
  reduceJavaAgentYaml m = Ok (st, err) →
  reduceJavaAgentYaml m' = Ok (st', err') →
  dom (model st') = dom (model st) ∧
  ∀ d q a, is_Some (attributeEntry (model st') d q a)
           ↔ is_Some (attributeEntry (model st) d q a).
Proof.
  intros Hperm [Hrun _]%reduceJavaAgentYaml_Ok [Hrun' _]%reduceJavaAgentYaml_Ok.
  split.
  - apply set_eq. intros d. rewrite !elem_of_dom.
    rewrite (model_is_Some_run m (JMX m) st d Hrun).
    rewrite (model_is_Some_run m' (JMX m') st' d Hrun').
    rewrite !Exists_exists. by setoid_rewrite Hperm.
  - intros d q a.
    rewrite (entry_is_Some_run m (JMX m) st d q a Hrun).
    rewrite (entry_is_Some_run m' (JMX m') st' d q a Hrun').
    by setoid_rewrite Hperm.
Qed.

Lemma reduction_keys_do_not_depend_on_order_witness :
  JMX (reversed scenario) ≡ₚ JMX scenario ∧
  reduceJavaAgentYaml scenario = Ok (scenarioResult, None) ∧
  reduceJavaAgentYaml (reversed scenario) = Ok (scenarioReversedResult, None) ∧
  dom (model scenarioReversedResult) = dom (model scenarioResult).
Proof.
  assert (Hp : JMX (reversed scenario) ≡ₚ JMX scenario) by apply reverse_Permutation.
  assert (H1 : reduceJavaAgentYaml scenario = Ok (scenarioResult, None))
    by (vm_compute; reflexivity).
  assert (H2 : reduceJavaAgentYaml (reversed scenario)
               = Ok (scenarioReversedResult, None))
    by (vm_compute; reflexivity).
  split; [exact Hp|]. split; [exact H1|]. split; [exact H2|].
  exact (proj1 (reduction_keys_do_not_depend_on_order _ _ _ _ _ _ Hp H1 H2)).
Defined.

(** The kinds do depend on it. *)
Example kind_depends_on_order :
  attributeEntry (model scenarioResult) "domain" "type=Thing,name=A" "count"
  = Some {| MetricType := "gauge"; MetricName := "count" |} ∧
  attributeEntry (model scenarioReversedResult) "domain" "type=Thing,name=A" "count"
  = Some {| MetricType := "delta"; MetricName := "count" |}.
Proof. split; vm_compute; reflexivity. Qed.

(** ** The metric limit *)

Lemma filter_all {A} (P : A → Prop) `{!∀ x, Decision (P x)} (l : list A) :
  Forall P l → filter P l = l.
Proof.
  induction 1 as [|x l Hx _ IH]; [done|]. by rewrite filter_cons_True, IH.
Qed.

Lemma filter_none {A} (P : A → Prop) `{!∀ x, Decision (P x)} (l : list A) :
  Forall (fun x => ¬ P x) l → filter P l = [].
Proof.
  induction 1 as [|x l Hx _ IH]; [done|]. by rewrite filter_cons_False.
Qed.


Lemma checkStep_run {Entity MetricSet : Type}
    (entityMetrics : Entity → list MetricSet) (setLen : MetricSet → nat)
    (entityName : Entity → string) MetricLimit valid warnings entities :
  foldl (checkStep entityMetrics setLen entityName MetricLimit) (valid, warnings) entities
  = (valid ++ filter (fun entity => ¬ overLimit entityMetrics setLen MetricLimit entity)
                     entities,
     warnings ++ (warningOf entityMetrics setLen entityName MetricLimit
                    <$> filter (overLimit entityMetrics setLen MetricLimit) entities)).
Proof.
  revert valid warnings.
  induction entities as [|entity entities IH]; intros valid warnings.
  - simpl. by rewrite !app_nil_r.
  - rewrite !filter_cons. cbn [foldl checkStep].
    destruct (decide (overLimit entityMetrics setLen MetricLimit entity)) as [Ho|Ho].
    + rewrite decide_False by tauto.
      destruct Ho as [H0 Hgt].
      rewrite (bool_decide_eq_true_2 _ H0), (bool_decide_eq_true_2 _ Hgt).
      cbn [andb]. rewrite IH. cbn [fmap list_fmap]. by rewrite <- app_assoc.
    + rewrite decide_True by done.
      assert (Hb : bool_decide (MetricLimit ≠ 0%Z)
                   && bool_decide (metricCountOf entityMetrics setLen entity
                                   > MetricLimit)%Z = false).
      { apply andb_false_iff. unfold overLimit in Ho.
        destruct (decide (MetricLimit ≠ 0%Z)) as [H0|H0].
        - right. apply bool_decide_eq_false_2. tauto.
        - left. by apply bool_decide_eq_false_2. }
      rewrite Hb, IH. by rewrite <- app_assoc.
Qed.


(** X20: a limit of 0 is no limit: every entity is returned, whatever the
    number of its metrics, and nothing is logged. *)
Theorem checkMetricLimit_zero_is_no_limit {Entity MetricSet : Type}
    (entityMetrics : Entity → list MetricSet) (setLen : MetricSet → nat)
    (entityName : Entity → string) entities :
  checkMetricLimit entityMetrics setLen entityName 0%Z entities = (entities, []).
Proof.
  unfold checkMetricLimit. rewrite checkStep_run. simpl.
  rewrite filter_all by (apply Forall_forall; by intros entity _ [? _]).
  rewrite filter_none by (apply Forall_forall; by intros entity _ [? _]).
  done.
Qed.

(** X21: checking the entities [checkMetricLimit] returns, against the
    same limit, returns all of them and logs nothing. *)
Theorem checkMetricLimit_idempotent {Entity MetricSet : Type}
    (entityMetrics : Entity → list MetricSet) (setLen : MetricSet → nat)
    (entityName : Entity → string) MetricLimit entities :
  checkMetricLimit entityMetrics setLen entityName MetricLimit
    (checkMetricLimit entityMetrics setLen entityName MetricLimit entities).1
  = ((checkMetricLimit entityMetrics setLen entityName MetricLimit entities).1, []).
Proof.
  unfold checkMetricLimit. rewrite !checkStep_run. simpl.
  set (kept := filter (fun entity => ¬ overLimit entityMetrics setLen MetricLimit entity)
                      entities).
  assert (Hkept : Forall (fun entity => ¬ overLimit entityMetrics setLen MetricLimit entity)
                         kept).
  { apply Forall_forall. by intros entity [? _]%list_elem_of_filter. }
  rewrite (filter_all _ kept Hkept), (filter_none _ kept Hkept). done.
Qed.



Example checkMetricLimit_default :
  checkMetricLimit snd id fst 200%Z sampleEntities
  = ([ ("small", [1; 2]); ("empty", []) ],
     [ {| warnedDomain := "big"; warnedCount := 210; warnedLimit := 200 |} ]).
Proof. vm_compute. reflexivity. Qed.
